(** * ADNI PET pipeline: row-level model of [adni_pet_pipeline.py]

    The script is a straight-line pandas program.  Every data frame is
    modelled as the list of its rows, in row order; a nullable cell
    (NaN / NaT / None) is an [option].  Timestamps are the integer value of
    a pandas [datetime64[ns]] cell (nanoseconds since the epoch), taken as
    unbounded integers.  A join keeps the two rows it pairs side by side,
    [(left, Some right)], and a left row without partner is [(left, None)]:
    all right-hand columns of that output row are null.  The renaming of
    columns by suffixes is not modelled; each accessor below says which
    source column it reads.  Column labels are modelled where the script's
    behaviour depends on them: the selection of registry columns in
    [attach_nearest_visit] and the region selector of section 10.  The
    dtype of the [RID] column of a frame (int64 without missing value,
    float64 with one, as [read_csv] leaves it) is an argument of the joins
    that compare it.  Strings are byte strings (UTF-8).

    The pandas operations the script calls ([dropna], [sort_values],
    [merge_asof], [merge], [drop_duplicates], [isin], [np.delete]) are
    modelled with the behaviour pandas / numpy document for them,
    including the exceptions [merge_asof] and [np.delete] raise.  Python's
    [str.upper] is a parameter of the region selector. *)

From Stdlib Require Import ZArith List String Ascii Bool Lia Permutation.
From Stdlib Require Import Sorting.Sorted DecimalString.
Import ListNotations.

Local Open Scope Z_scope.
Local Open Scope list_scope.

(** ** Exceptions and results *)

Inductive Side := LeftSide | RightSide.

Inductive PandasError :=
| LabelNotUnique (label : string) (* ValueError: The column label '..' is not unique. *)
| IncompatibleMergeKeys         (* MergeError: incompatible merge keys .., must be the same type *)
| MergeKeysNull (s : Side)      (* ValueError: Merge keys contain null values on .. side *)
| KeysNotSorted (s : Side)      (* ValueError: .. keys must be sorted *)
| IndexOutOfBounds (i size : nat). (* IndexError raised by np.delete *)

(** The dtype of a key column. *)
Inductive Dtype := Int64 | Float64 | Object.

Definition dtype_eqb (a b : Dtype) : bool :=
  match a, b with
  | Int64, Int64 | Float64, Float64 | Object, Object => true
  | _, _ => false
  end.

Inductive result (A : Type) :=
| Ok (a : A)
| Raise (e : PandasError).

Arguments Ok {A} a.
Arguments Raise {A} e.

Definition bind {A B} (m : result A) (k : A -> result B) : result B :=
  match m with
  | Ok a => k a
  | Raise e => Raise e
  end.

Notation "x <- m ;; k" := (bind m (fun x => k))
  (at level 61, m at next level, right associativity).

(** ** Nullable cells *)

Definition notna {A} (c : option A) : bool :=
  match c with Some _ => true | None => false end.

(** Equality of join keys: pandas groups all nulls of a key column
    together, so a null key only pairs with a null key. *)
Definition rid_eqb (a b : option Z) : bool :=
  match a, b with
  | Some x, Some y => x =? y
  | None, None => true
  | _, _ => false
  end.

Definition ostr_eqb (a b : option string) : bool :=
  match a, b with
  | Some x, Some y => String.eqb x y
  | None, None => true
  | _, _ => false
  end.

(** ** [sort_values([k1, k2])]: stable, ascending, nulls last *)

Definition na_last_ltb (a b : option Z) : bool :=
  match a, b with
  | Some x, Some y => x <? y
  | Some _, None => true
  | None, _ => false
  end.

Definition na_last_leb (a b : option Z) : bool := negb (na_last_ltb b a).

Section SortValues.
Variable A : Type.
Variables k1 k2 : A -> option Z.

Definition row_leb (x y : A) : bool :=
    na_last_ltb (k1 x) (k1 y)
    || (na_last_leb (k1 x) (k1 y) && na_last_leb (k2 x) (k2 y)).

Fixpoint insert_row (x : A) (l : list A) : list A :=
    match l with
    | [] => [x]
    | y :: l' => if row_leb x y then x :: l else y :: insert_row x l'
    end.

Definition sort_values (l : list A) : list A :=
    fold_right insert_row [] l.

  (** [dropna(subset=[k1, k2])] *)
Definition dropna2 (l : list A) : list A :=
    filter (fun r => notna (k1 r) && notna (k2 r)) l.
End SortValues.

Arguments sort_values {A} k1 k2 l.
Arguments dropna2 {A} k1 k2 l.

(** ** [pd.merge_asof(left, right, left_on, right_on, by, direction="nearest")] *)

Fixpoint is_monotonic_increasing (ts : list Z) : bool :=
  match ts with
  | [] => true
  | x :: rest =>
      match rest with
      | [] => true
      | y :: _ => (x <=? y) && is_monotonic_increasing rest
      end
  end.

Fixpoint all_values (cs : list (option Z)) : option (list Z) :=
  match cs with
  | [] => Some []
  | None :: _ => None
  | Some t :: cs' =>
      match all_values cs' with
      | Some ts => Some (t :: ts)
      | None => None
      end
  end.

(** The validation of one side's [on] column: nulls are reported first,
    then unsortedness. *)
Definition check_on_keys (s : Side) (cs : list (option Z)) : result unit :=
  match all_values cs with
  | None => Raise (MergeKeysNull s)
  | Some ts =>
      if is_monotonic_increasing ts then Ok tt else Raise (KeysNotSorted s)
  end.

Fixpoint find_last {A} (p : A -> bool) (l : list A) : option A :=
  match l with
  | [] => None
  | x :: l' =>
      match find_last p l' with
      | Some y => Some y
      | None => if p x then Some x else None
      end
  end.

Section MergeAsof.
Variables L R : Type.
Variables (lby lon : L -> option Z) (rby ron : R -> option Z).

  (** backward: the last right row of the group whose key is <= t *)
Definition asof_backward (g : option Z) (t : Z) (right : list R) : option R :=
    find_last (fun r => rid_eqb (rby r) g
                        && match ron r with Some u => u <=? t | None => false end)
              right.

  (** forward: the first right row of the group whose key is >= t *)
Definition asof_forward (g : option Z) (t : Z) (right : list R) : option R :=
    find (fun r => rid_eqb (rby r) g
                   && match ron r with Some u => t <=? u | None => false end)
         right.

Definition on_value (c : option Z) : Z :=
    match c with Some t => t | None => 0 end.

  (** nearest: of the two neighbours the closer one; the backward one when
      both are equally far *)
Definition asof_nearest (g : option Z) (t : Z) (right : list R) : option R :=
    match asof_backward g t right, asof_forward g t right with
    | Some b, Some f =>
        if (t - on_value (ron b)) <=? (on_value (ron f) - t)
        then Some b else Some f
    | Some b, None => Some b
    | None, f => f
    end.

  (** The join proper: the [on] keys are validated, left side first, then
      every left row gets its nearest right row. *)
Definition asof_join (left : list L) (right : list R)
    : result (list (L * option R)) :=
    _ <- check_on_keys LeftSide (map lon left) ;;
    _ <- check_on_keys RightSide (map ron right) ;;
    Ok (map (fun l => (l, asof_nearest (lby l) (on_value (lon l)) right)) left).

  (** [merge_asof] first compares the dtypes of the [by] key on the two
      sides ([lby_dtype], [rby_dtype]) and raises when they differ. *)
Definition merge_asof (lby_dtype rby_dtype : Dtype) (left : list L) (right : list R)
    : result (list (L * option R)) :=
    if dtype_eqb lby_dtype rby_dtype then asof_join left right
    else Raise IncompatibleMergeKeys.

  (** The right frame of [attach_nearest_visit] is the selection
      [reg[["RID", reg_date_col, *keep_reg_cols]]]; [merge_asof] resolves
      its [by] label and then its [right_on] label in it, and raises on
      the first that is carried by more than one column. *)
Definition selected_labels (reg_date_col : string) (keep_reg_cols : list string)
    : list string :=
    "RID"%string :: reg_date_col :: keep_reg_cols.

Definition duplicated_key_label (reg_date_col : string) (keep_reg_cols : list string)
    : option string :=
    let labels := selected_labels reg_date_col keep_reg_cols in
    find (fun key => (1 <? count_occ string_dec labels key)%nat)
         ["RID"%string; reg_date_col].

  (** *** Script, lines 17-42.  [lon] reads the column [pet_date_col] and
      [ron] the column [reg_date_col]; the direction is always "nearest"
      in the script. *)
Definition attach_nearest_visit (pet_rid_dtype reg_rid_dtype : Dtype)
           (pet_df : list L) (registry_df : list R)
           (reg_date_col : string) (keep_reg_cols : list string)
    : result (list (L * option R)) :=
    let pet := dropna2 lby lon pet_df in
    let reg := dropna2 rby ron registry_df in
    let pet := sort_values lby lon pet in
    let reg := sort_values rby ron reg in
    match duplicated_key_label reg_date_col keep_reg_cols with
    | Some label => Raise (LabelNotUnique label)
    | None => merge_asof pet_rid_dtype reg_rid_dtype pet reg
    end.

  (** *** Script, lines 125-133 and 186-194: the same call written inline,
      on frames sorted by [RID] and date but not cleared of nulls *)
Definition merge_asof_sorted (lby_dtype rby_dtype : Dtype)
           (left : list L) (right : list R)
    : result (list (L * option R)) :=
    merge_asof lby_dtype rby_dtype (sort_values lby lon left) (sort_values rby ron right).
End MergeAsof.

Arguments asof_backward {R} rby ron g t right.
Arguments asof_forward {R} rby ron g t right.
Arguments asof_nearest {R} rby ron g t right.
Arguments asof_join {L R} lby lon rby ron left right.
Arguments merge_asof {L R} lby lon rby ron lby_dtype rby_dtype left right.
Arguments attach_nearest_visit {L R} lby lon rby ron pet_rid_dtype reg_rid_dtype
  pet_df registry_df reg_date_col keep_reg_cols.
Arguments merge_asof_sorted {L R} lby lon rby ron lby_dtype rby_dtype left right.

(** The defaults of [attach_nearest_visit]. *)
Definition default_reg_date_col : string := "EXAMDATE".
Definition default_keep_reg_cols : list string :=
  ["VISCODE"; "VISCODE2"; "EXAMDATE"]%string.

(** ** [left.merge(right, on=keys, how=...)]: exact-key join

    Left rows keep their order; the partners of one left row come in
    right order.  [key_eqb] compares the tuples of key cells. *)

Section Merge.
Variables L R K : Type.
Variable key_eqb : K -> K -> bool.
Variables (lkey : L -> K) (rkey : R -> K).

Definition partners (l : L) (right : list R) : list R :=
    filter (fun r => key_eqb (lkey l) (rkey r)) right.

Definition merge_left (left : list L) (right : list R) : list (L * option R) :=
    flat_map (fun l =>
                match partners l right with
                | [] => [(l, None)]
                | rs => map (fun r => (l, Some r)) rs
                end) left.

Definition merge_inner (left : list L) (right : list R) : list (L * R) :=
    flat_map (fun l => map (fun r => (l, r)) (partners l right)) left.
End Merge.

Arguments partners {L R K} key_eqb lkey rkey l right.
Arguments merge_left {L R K} key_eqb lkey rkey left right.
Arguments merge_inner {L R K} key_eqb lkey rkey left right.

Definition key2_eqb (a b : option Z * option string) : bool :=
  rid_eqb (fst a) (fst b) && ostr_eqb (snd a) (snd b).

Definition key_date_eqb (a b : option Z * option Z) : bool :=
  rid_eqb (fst a) (fst b) && rid_eqb (snd a) (snd b).

(** ** [drop_duplicates(subset=key, keep=...)] *)

Section DropDuplicates.
Variables A K : Type.
Variable key_eqb : K -> K -> bool.
Variable key : A -> K.

Definition same_key (x y : A) : bool := key_eqb (key x) (key y).

  (** keep="last": a row survives when no later row has its key *)
Fixpoint drop_duplicates_last (l : list A) : list A :=
    match l with
    | [] => []
    | x :: l' =>
        if existsb (same_key x) l' then drop_duplicates_last l'
        else x :: drop_duplicates_last l'
    end.

  (** keep="first" (the default): a row survives when no earlier row has
      its key *)
Fixpoint drop_duplicates_from (seen : list A) (l : list A) : list A :=
    match l with
    | [] => []
    | x :: l' =>
        if existsb (same_key x) seen then drop_duplicates_from seen l'
        else x :: drop_duplicates_from (x :: seen) l'
    end.

Definition drop_duplicates_first (l : list A) : list A :=
    drop_duplicates_from [] l.
End DropDuplicates.

Arguments same_key {A K} key_eqb key x y.
Arguments drop_duplicates_last {A K} key_eqb key l.
Arguments drop_duplicates_first {A K} key_eqb key l.

(** ** Scalar cells and frames with a schema *)

Inductive Cell :=
| CNull
| CNum (n : Z)
| CStr (s : string).

(** [series == value], element by element: a null cell equals nothing *)
Definition cell_eq (a b : Cell) : bool :=
  match a, b with
  | CNum x, CNum y => x =? y
  | CStr x, CStr y => String.eqb x y
  | _, _ => false
  end.

(** membership test of [series.isin(values)]: a null cell is found when
    the list holds a null *)
Definition cell_same (a b : Cell) : bool :=
  match a, b with
  | CNull, CNull => true
  | _, _ => cell_eq a b
  end.

Definition isin (c : Cell) (values : list Cell) : bool :=
  existsb (cell_same c) values.

Definition in_columns (c : string) (cols : list string) : bool :=
  existsb (String.eqb c) cols.

Record DataFrame (Row : Type) := {
  columns : list string;
  rows : list Row
}.

Arguments columns {Row} d.
Arguments rows {Row} d.

(** ** Script, lines 44-50 *)

Section FilterPetQC.
Variable Row : Type.
  (** [cell c r] is the cell of row [r] in column [c] *)
Variable cell : string -> Row -> Cell.

  (** Python truthiness of the [exclude_tracers] argument: [None] and the
      empty list are false *)
Definition truthy (exclude_tracers : option (list Cell)) : bool :=
    match exclude_tracers with
    | Some (_ :: _) => true
    | _ => false
    end.

Definition exclusion_list (exclude_tracers : option (list Cell)) : list Cell :=
    match exclude_tracers with Some vs => vs | None => [] end.

Definition filter_pet_qc (pet_df : DataFrame Row) (qc_col : string)
             (qc_pass : Cell) (tracer_col : string)
             (exclude_tracers : option (list Cell)) : DataFrame Row :=
    let df := pet_df in
    let df :=
      if in_columns qc_col (columns df)
      then {| columns := columns df;
              rows := filter (fun r => cell_eq (cell qc_col r) qc_pass) (rows df) |}
      else df in
    let df :=
      if truthy exclude_tracers && in_columns tracer_col (columns df)
      then {| columns := columns df;
              rows := filter (fun r => negb (isin (cell tracer_col r)
                                                  (exclusion_list exclude_tracers)))
                             (rows df) |}
      else df in
    df.
End FilterPetQC.

Arguments filter_pet_qc {Row} cell pet_df qc_col qc_pass tracer_col exclude_tracers.

(** ** Script, lines 52-58 *)

Record ApoeRow := {
  ap_rid : option Z;             (* RID *)
  ap_genotype : option string    (* GENOTYPE *)
}.

Record ApoeStatus := {
  s_rid : option Z;              (* RID *)
  s_apoe4 : option Z             (* APOE4: 0.0, 1.0, 2.0 or NaN *)
}.

Definition mapping : list (string * Z) :=
  [("2/2", 0); ("2/3", 0); ("3/3", 0); ("2/4", 1); ("3/4", 1); ("4/4", 2)]%string.

Fixpoint dict_get (d : list (string * Z)) (k : string) : option Z :=
  match d with
  | [] => None
  | (k', v) :: d' => if String.eqb k k' then Some v else dict_get d' k
  end.

(** [series.map(mapping)]: null stays null, a key outside the dictionary
    becomes null *)
Definition map_mapping (g : option string) : option Z :=
  match g with
  | Some s => dict_get mapping s
  | None => None
  end.

Definition add_apoe4_status (apoe_df : list ApoeRow) : list ApoeStatus :=
  let apoe := drop_duplicates_last rid_eqb ap_rid apoe_df in
  map (fun r => {| s_rid := ap_rid r; s_apoe4 := map_mapping (ap_genotype r) |}) apoe.


(** ** The input frames

    Each frame is taken with the columns the script reads from it.  The
    floating-point columns ([AGE], the derived [AGE_AT_SCAN], the regional
    measurements) are carried along by the script without any row-level
    decision reading them; they are not part of the row records. *)

Record MetaRow := {              (* taumeta.csv, amymeta.csv *)
  m_rid : option Z;              (* RID *)
  m_viscode : option string;     (* VISCODE *)
  m_scandate : option Z          (* SCANDATE *)
}.

Record QcRow := {                (* tau_qc.csv, amyqc.csv *)
  q_rid : option Z;
  q_viscode : option string;
  q_viscode2 : option string;
  q_scandate : option Z
}.

Record RegRow := {               (* registry.csv *)
  g_rid : option Z;
  g_examdate : option Z;         (* EXAMDATE *)
  g_viscode : option string;
  g_viscode2 : option string
}.

Record PetRow := {               (* taupet.csv, amy_data.csv *)
  p_rid : option Z;
  p_viscode : option string;
  p_scandate : option Z;
  p_cells : list (string * Cell) (* the other columns, by name: QC_FLAG, TRACER, .. *)
}.

Record AdniRow := {              (* ADNIMERGE.csv, restricted to adni_keep_cols *)
  a_rid : option Z;
  a_viscode : option string;
  a_examdate : option Z;
  a_examdate_bl : option Z;
  a_dx : option string           (* DX *)
}.

Fixpoint assoc_cell (c : string) (cells : list (string * Cell)) : Cell :=
  match cells with
  | [] => CNull
  | (c', v) :: cells' => if String.eqb c c' then v else assoc_cell c cells'
  end.

Definition pet_cell (c : string) (r : PetRow) : Cell := assoc_cell c (p_cells r).

(** ** Script, sections 2 to 9 *)

(** A metadata row with the QC row merged onto it; [SCANDATE] is
    [SCANDATE_META.fillna(SCANDATE_QC)]. *)
Definition ScanRow : Type := MetaRow * option QcRow.

Definition fillna (a b : option Z) : option Z :=
  match a with Some _ => a | None => b end.

Definition scan_rid (r : ScanRow) : option Z := m_rid (fst r).
Definition scan_viscode (r : ScanRow) : option string := m_viscode (fst r).
Definition scan_date (r : ScanRow) : option Z :=
  fillna (m_scandate (fst r))
         (match snd r with Some q => q_scandate q | None => None end).

(** lines 85-99 *)
Definition tau (taumeta : list MetaRow) (tau_qc : list QcRow) : list ScanRow :=
  merge_left key2_eqb
             (fun m => (m_rid m, m_viscode m)) (fun q => (q_rid q, q_viscode q))
             taumeta tau_qc.

(** A scan row with its nearest registry visit. *)
Definition VisitRow : Type := ScanRow * option RegRow.

(** line 104: the call leaves [reg_date_col] and [keep_reg_cols] at their
    defaults *)
Definition tau_with_visit (tau_rid_dtype registry_rid_dtype : Dtype)
           (tau : list ScanRow) (registry : list RegRow)
  : result (list VisitRow) :=
  attach_nearest_visit scan_rid scan_date g_rid g_examdate
                       tau_rid_dtype registry_rid_dtype tau registry
                       default_reg_date_col default_keep_reg_cols.

Definition TauMergedRow : Type := PetRow * option VisitRow.

Definition tm_rid (r : TauMergedRow) : option Z := p_rid (fst r).
Definition tm_scandate (r : TauMergedRow) : option Z := p_scandate (fst r).

(** lines 109-116; the [VISCODE] of [tau_with_visit] is the metadata one *)
Definition tau_merged (tau_pet : DataFrame PetRow) (tau_with_visit : list VisitRow)
  : list TauMergedRow :=
  let tau_pet := filter_pet_qc pet_cell tau_pet "QC_FLAG" (CNum 2) "TRACER"
                               (Some [CStr "MK6240"]) in
  merge_left key2_eqb
             (fun p => (p_rid p, p_viscode p))
             (fun v : VisitRow => (scan_rid (fst v), scan_viscode (fst v)))
             (rows tau_pet) tau_with_visit.

Definition TauAdniRow : Type := TauMergedRow * option AdniRow.

(** lines 125-133 *)
Definition tau_adni (tau_rid_dtype adni_rid_dtype : Dtype)
           (tau_merged : list TauMergedRow) (adni2 : list AdniRow)
  : result (list TauAdniRow) :=
  merge_asof_sorted tm_rid tm_scandate a_rid a_examdate
                    tau_rid_dtype adni_rid_dtype tau_merged adni2.

Definition TauApoeRow : Type := TauAdniRow * option ApoeStatus.

Definition ta_rid (r : TauApoeRow) : option Z := tm_rid (fst (fst r)).
Definition ta_scandate_tau (r : TauApoeRow) : option Z := tm_scandate (fst (fst r)).
Definition ta_dx (r : TauApoeRow) : option string :=
  match snd (fst r) with Some a => a_dx a | None => None end.
Definition ta_apoe4 (r : TauApoeRow) : option Z :=
  match snd r with Some s => s_apoe4 s | None => None end.

(** lines 138-145 *)
Definition tau_adni_apoe (tau_adni : list TauAdniRow) (apoe_raw : list ApoeRow)
  : list TauApoeRow :=
  let apoe := add_apoe4_status apoe_raw in
  let tau_adni :=
    merge_left rid_eqb (fun r : TauAdniRow => tm_rid (fst r)) s_rid tau_adni apoe in
  filter (fun r => notna (ta_apoe4 r) && notna (ta_dx r)) tau_adni.

(** lines 150-163 *)
Definition amy (amy_meta : list MetaRow) (amy_qc : list QcRow) : list ScanRow :=
  let amy := merge_left rid_eqb m_rid q_rid amy_meta amy_qc in
  let amy := dropna2 scan_rid scan_date amy in
  drop_duplicates_first key_date_eqb (fun r => (scan_rid r, scan_date r)) amy.

(** line 165: again with the defaults *)
Definition amy_with_visit (amy_rid_dtype registry_rid_dtype : Dtype)
           (amy : list ScanRow) (registry : list RegRow)
  : result (list VisitRow) :=
  attach_nearest_visit scan_rid scan_date g_rid g_examdate
                       amy_rid_dtype registry_rid_dtype amy registry
                       default_reg_date_col default_keep_reg_cols.

Definition AmyMergedRow : Type := VisitRow * PetRow.

Definition am_rid (r : AmyMergedRow) : option Z := scan_rid (fst (fst r)).
Definition am_scandate_amy (r : AmyMergedRow) : option Z := scan_date (fst (fst r)).

(** lines 170-178; [amy] carries its visit codes as [VISCODE_META] and
    [VISCODE_QC], so the [VISCODE] of [amy_with_visit] is the registry one *)
Definition amy_merged (amy_with_visit : list VisitRow) (amy_pet : DataFrame PetRow)
  : list AmyMergedRow :=
  let amy_pet := filter_pet_qc pet_cell amy_pet "QC_FLAG" (CNum 2) "TRACER" None in
  let amy_pet :=
    filter (fun p => notna (p_rid p) && notna (p_viscode p) && notna (p_scandate p))
           (rows amy_pet) in
  merge_inner key2_eqb
              (fun v : VisitRow =>
                 (scan_rid (fst v),
                  match snd v with Some g => g_viscode g | None => None end))
              (fun p => (p_rid p, p_viscode p))
              amy_with_visit amy_pet.

Definition TauAmyRow : Type := TauApoeRow * option AmyMergedRow.

(** lines 186-194 *)
Definition tau_amy (tau_rid_dtype amy_rid_dtype : Dtype)
           (tau_adni : list TauApoeRow) (amy_merged : list AmyMergedRow)
  : result (list TauAmyRow) :=
  merge_asof_sorted ta_rid ta_scandate_tau am_rid am_scandate_amy
                    tau_rid_dtype amy_rid_dtype tau_adni amy_merged.

Definition SCANDATE_TAU (r : TauAmyRow) : option Z := ta_scandate_tau (fst r).
Definition SCANDATE_AMY (r : TauAmyRow) : option Z :=
  match snd r with Some a => am_scandate_amy a | None => None end.

Definition ns_per_day : Z := 86400000000000.

(** line 196: the [days] component of the difference, rounded down; null
    when either date is *)
Definition AMY_TAU_SCANDIFF_DAYS (r : TauAmyRow) : option Z :=
  match SCANDATE_AMY r, SCANDATE_TAU r with
  | Some a, Some t => Some ((a - t) / ns_per_day)
  | _, _ => None
  end.

(** line 197: a comparison with a null is false *)
Definition within_a_year (r : TauAmyRow) : bool :=
  match AMY_TAU_SCANDIFF_DAYS r with
  | Some g => Z.abs g <? 365
  | None => false
  end.

Definition tolerance_gate (tau_amy : list TauAmyRow) : list TauAmyRow :=
  filter within_a_year tau_amy.

(** lines 186-197 *)
Definition cross_modality_alignment (tau_rid_dtype amy_rid_dtype : Dtype)
           (tau_adni : list TauApoeRow) (amy_merged : list AmyMergedRow)
  : result (list TauAmyRow) :=
  tau_amy <- tau_amy tau_rid_dtype amy_rid_dtype tau_adni amy_merged ;;
  Ok (tolerance_gate tau_amy).

(** ** Script, section 10: region columns *)

Definition dash_to_underscore (c : ascii) : ascii :=
  if Ascii.eqb c "-" then "_"%char else c.

Fixpoint str_map (f : ascii -> ascii) (s : string) : string :=
  match s with
  | EmptyString => EmptyString
  | String c s' => String (f c) (str_map f s')
  end.

Section RegionSelector.
  (** Python's [str.upper], which is Unicode-aware: nothing is assumed of
      it. *)
Variable str_upper : string -> string.

(** lines 202-203, on one catalog label; the dash is an ASCII byte, so
    replacing it byte by byte is the replacement on the UTF-8 string *)
Definition FS_LABEL (raw : string) : string :=
  (str_upper (str_map dash_to_underscore raw) ++ "_SUVR")%string.

Fixpoint endswith (s suffix : string) : bool :=
  if String.eqb s suffix then true
  else match s with
       | EmptyString => false
       | String _ s' => endswith s' suffix
       end.

Definition subcortical_idx : list nat :=
  [34;35;36;37;38;39;40;41;42;43;44;45;46;47;48;83]%nat.

Fixpoint delete_from {A} (i : nat) (arr : list A) (idx : list nat) : list A :=
  match arr with
  | [] => []
  | x :: arr' =>
      if existsb (Nat.eqb i) idx then delete_from (S i) arr' idx
      else x :: delete_from (S i) arr' idx
  end.

(** [np.delete(arr, idx)]: the array without the listed positions; an
    index past the end raises *)
Definition np_delete {A} (arr : list A) (idx : list nat) : result (list A) :=
  match find (fun i => (List.length arr <=? i)%nat) idx with
  | Some i => Raise (IndexOutOfBounds i (List.length arr))
  | None => Ok (delete_from 0%nat arr idx)
  end.

(** [frame[labels].columns]: every column carrying a requested label, for
    each requested label in turn *)
Definition select_columns (cols labels : list string) : list string :=
  flat_map (fun c => filter (String.eqb c) cols) labels.

Definition suvr_cols_ordered (ordered cols : list string) : list string :=
  filter (fun c => in_columns c cols) ordered.

Definition non_suvr_cols (cols : list string) : list string :=
  filter (fun c => negb (endswith c "_SUVR")) cols.

(** lines 202-213: the columns of [tau_amy_cortical], from the raw catalog
    labels and the columns of [tau_amy] *)
Definition tau_amy_cortical (fs_region : list string) (tau_amy_columns : list string)
  : result (list string) :=
  let labels := map FS_LABEL fs_region in
  ordered <- np_delete labels subcortical_idx ;;
  Ok (select_columns tau_amy_columns
        (non_suvr_cols tau_amy_columns ++ suvr_cols_ordered ordered tau_amy_columns)).
End RegionSelector.

(** What a frame must satisfy for [merge_asof] to accept its [on] column:
    no null and ascending over the whole frame. *)
Definition keys_accepted {X} (on : X -> option Z) (l : list X) : Prop :=
  (forall x, In x l -> on x <> None)
  /\ StronglySorted Z.le (map (fun x => on_value (on x)) l).

(** ** Sample frames *)

Definition day (n : Z) : Z := n * ns_per_day.

Definition pet_row (rid : Z) (viscode : string) (d : Z) : PetRow :=
  {| p_rid := Some rid; p_viscode := Some viscode; p_scandate := Some (day d);
     p_cells := [("QC_FLAG"%string, CNum 2)] |}.

Definition adni_row (rid : Z) (d : Z) (dx : string) : AdniRow :=
  {| a_rid := Some rid; a_viscode := None; a_examdate := Some (day d);
     a_examdate_bl := Some (day 0); a_dx := Some dx |}.

(** One tau scan of subject 1 on day 100. *)
Definition scan_1_day100 : TauMergedRow := (pet_row 1 "m12" 100, None).

(** Assessments: subject 1 on day 90, subject 2 on day 100. *)
Definition adni_two_subjects : list AdniRow :=
  [adni_row 1 90 "CN"; adni_row 2 100 "MCI"].



Definition genotype_row (rid : Z) (g : string) : ApoeRow :=
  {| ap_rid := Some rid; ap_genotype := Some g |}.

(** Three genotype rows of subject 7, in file order. *)
Definition genotypes_rid7 : list ApoeRow :=
  [genotype_row 7 "3/4"; genotype_row 7 "2/2"; genotype_row 7 "4/4"].


(** A tau scan that went through sections 2 to 6, and an amyloid scan
    that went through sections 7 and 8. *)
Definition tau_scan (rid d : Z) : TauApoeRow :=
  (((pet_row rid "m12" d, None), Some (adni_row rid d "CN")),
   Some {| s_rid := Some rid; s_apoe4 := Some 1 |}).

Definition amy_scan (rid d : Z) : AmyMergedRow :=
  ((({| m_rid := Some rid; m_viscode := Some "m12"%string;
        m_scandate := Some (day d) |}, None), None),
   pet_row rid "m12" d).

Definition pair_364 : TauAmyRow := (tau_scan 1 1000, Some (amy_scan 1 1364)).
Definition pair_365 : TauAmyRow := (tau_scan 1 1000, Some (amy_scan 1 1365)).


Definition meta_row (rid : Z) (viscode : string) (d : Z) : MetaRow :=
  {| m_rid := Some rid; m_viscode := Some viscode; m_scandate := Some (day d) |}.

Definition qc_row (rid : Z) (viscode : string) (d : Z) : QcRow :=
  {| q_rid := Some rid; q_viscode := Some viscode; q_viscode2 := Some viscode;
     q_scandate := Some (day d) |}.

Definition reg_row (rid : Z) (viscode : string) (d : Z) : RegRow :=
  {| g_rid := Some rid; g_examdate := Some (day d); g_viscode := Some viscode;
     g_viscode2 := Some viscode |}.

(** A tau scan whose SCANDATE did not parse. *)
Definition scan_without_date : TauMergedRow :=
  ({| p_rid := Some 1; p_viscode := Some "m12"%string; p_scandate := None;
      p_cells := [("QC_FLAG"%string, CNum 2)] |}, None).

Definition meta_without_date : ScanRow :=
  ({| m_rid := Some 1; m_viscode := Some "m12"%string; m_scandate := None |}, None).

(** Two tau scans, the one of the smaller RID taken later. *)
Definition scans_interleaved : list TauMergedRow :=
  [(pet_row 1 "m12" 200, None); (pet_row 2 "m12" 100, None)].

(** A PET frame: one passing scan, one failing QC, one with an excluded
    tracer. *)
Definition pet_frame_sample : DataFrame PetRow :=
  {| columns := ["RID"; "VISCODE"; "SCANDATE"; "QC_FLAG"; "TRACER"]%string;
     rows := [ {| p_rid := Some 1; p_viscode := Some "m12"%string;
                  p_scandate := Some (day 1000);
                  p_cells := [("QC_FLAG", CNum 2); ("TRACER", CStr "AV1451")]%string |};
               {| p_rid := Some 2; p_viscode := Some "m12"%string;
                  p_scandate := Some (day 1001);
                  p_cells := [("QC_FLAG", CNum 1); ("TRACER", CStr "AV1451")]%string |};
               {| p_rid := Some 3; p_viscode := Some "m12"%string;
                  p_scandate := Some (day 1002);
                  p_cells := [("QC_FLAG", CNum 2); ("TRACER", CStr "MK6240")]%string |} ] |}.

(** A catalog of 90 labels, region-0 to region-89. *)
Definition sample_catalog : list string :=
  map (fun n => ("region-" ++ NilZero.string_of_uint (Nat.to_uint n))%string)
      (seq 0 90).

(** Columns of a matched table: region 40 sits at a subcortical position,
    EXTRA_SUVR is not in the catalog, and region 5 comes before region 2. *)
Definition sample_columns : list string :=
  ["RID"; "REGION_40_SUVR"; "DX"; "REGION_5_SUVR"; "EXTRA_SUVR"; "APOE4";
   "REGION_2_SUVR"]%string.

(** [str.upper] on a string of ASCII characters, as the sample labels
    are: the letters a to z become A to Z. *)
Definition upper_ascii (c : ascii) : ascii :=
  let n := nat_of_ascii c in
  if ((97 <=? n) && (n <=? 122))%nat then ascii_of_nat (n - 32) else c.

Definition ascii_upper (s : string) : string := str_map upper_ascii s.

Definition sample_ordered : list string :=
  Eval vm_compute in
    delete_from 0%nat (map (FS_LABEL ascii_upper) sample_catalog) subcortical_idx.

(** Two tau scans matched to an assessment, of subjects 1 and 2, and the
    genotype frame: subject 2 has no genotype record. *)
Definition sample_tau_adni : list TauAdniRow :=
  [((pet_row 2 "m12" 1000, None), Some (adni_row 2 1000 "CN"));
   ((pet_row 1 "m12" 1000, None), Some (adni_row 1 1000 "CN"))].

Definition sample_apoe_raw : list ApoeRow := [genotype_row 1 "3/4"].

(** Among the rows that have both keys, a smaller subject key never comes
    with a later date than a larger subject key. *)
Definition subject_order_is_date_order {A} (k1 k2 : A -> option Z) (l : list A)
  : Prop :=
  forall x y, In x l -> In y l ->
  forall rx ry tx ty,
    k1 x = Some rx -> k1 y = Some ry -> k2 x = Some tx -> k2 y = Some ty ->
    rx < ry -> tx <= ty.


(** Scans for the registry join: one without date, two of subject 1. *)
Definition scans_for_registry : list ScanRow :=
  [meta_without_date; (meta_row 1 "m06" 380, None); (meta_row 1 "bl" 200, None)].

Definition registry_subject_1 : list RegRow :=
  [reg_row 1 "bl" 198; reg_row 1 "m06" 385].


(** Subject order with null keys last agrees with date order. *)
Definition null_last_order_is_date_order {A} (k1 k2 : A -> option Z) (l : list A)
  : Prop :=
  forall x y, In x l -> In y l -> na_last_ltb (k1 x) (k1 y) = true ->
              on_value (k2 x) <= on_value (k2 y).

(** The tau PET row and the amyloid PET row a final row is built on. *)
Definition ta_pet (r : TauApoeRow) : PetRow := fst (fst (fst r)).
Definition am_pet (r : AmyMergedRow) : PetRow := snd r.
Definition am_visit (r : AmyMergedRow) : option RegRow := snd (fst r).

(** A tau PET row that passes the quality filter of section 4. *)
Definition sample_passed_pet : PetRow :=
  {| p_rid := Some 1; p_viscode := Some "m12"%string; p_scandate := Some (day 1000);
     p_cells := [("QC_FLAG", CNum 2); ("TRACER", CStr "AV1451")]%string |}.

Definition sample_ta : list TauAdniRow :=
  [((sample_passed_pet, None), Some (adni_row 1 1000 "CN"))].

(** An amyloid scan with its registry visit, and the amyloid PET frame. *)
Definition sample_amy_with_visit : list VisitRow :=
  [((meta_row 1 "bl" 1364, None), Some (reg_row 1 "m12" 1360))].

Definition sample_amy_pet : DataFrame PetRow :=
  {| columns := ["RID"; "VISCODE"; "SCANDATE"; "QC_FLAG"]%string;
     rows := [pet_row 1 "m12" 1364] |}.

Definition sample_qc_row : TauAmyRow :=
  ((((sample_passed_pet, None), Some (adni_row 1 1000 "CN")),
    Some {| s_rid := Some 1; s_apoe4 := Some 1 |}),
   Some (((meta_row 1 "bl" 1364, None), Some (reg_row 1 "m12" 1360)),
         pet_row 1 "m12" 1364)).

(** A tau PET frame in which one scan that passes the filter has no date. *)
Definition pet_frame_undated : DataFrame PetRow :=
  {| columns := ["RID"; "VISCODE"; "SCANDATE"; "QC_FLAG"]%string;
     rows := [fst scan_without_date; pet_row 1 "m12" 1000] |}.


(** * Properties *)

(** ** Lists *)

Lemma find_last_some {A} (p : A -> bool) (l : list A) (y : A) :
  find_last p l = Some y ->
  exists l1 l2, l = l1 ++ y :: l2 /\ p y = true /\ forall x, In x l2 -> p x = false.
Proof.
  revert y. induction l as [|x l IH]; simpl; intros y H; [discriminate|].
  destruct (find_last p l) as [z|] eqn:E.
  - injection H as ->. destruct (IH y eq_refl) as (l1 & l2 & -> & Hy & Hl2).
    exists (x :: l1), l2. auto.
  - destruct (p x) eqn:Px; [|discriminate]. injection H as ->.
    exists [], l. repeat split; auto.
    clear IH. induction l as [|a l IHl]; simpl in *; [tauto|].
    destruct (find_last p l); [discriminate|].
    destruct (p a) eqn:Pa; [discriminate|].
    intros z [<-|Hz]; auto.
Qed.

Lemma find_last_none {A} (p : A -> bool) (l : list A) :
  find_last p l = None -> forall x, In x l -> p x = false.
Proof.
  induction l as [|a l IH]; simpl; [tauto|].
  destruct (find_last p l); [discriminate|].
  destruct (p a) eqn:Pa; [discriminate|].
  intros _ x [<-|Hx]; auto.
Qed.

Lemma find_first_some {A} (p : A -> bool) (l : list A) (y : A) :
  find p l = Some y ->
  exists l1 l2, l = l1 ++ y :: l2 /\ p y = true /\ forall x, In x l1 -> p x = false.
Proof.
  induction l as [|x l IH]; simpl; [discriminate|].
  destruct (p x) eqn:Px.
  - intros H. injection H as ->. exists [], l. simpl. repeat split; tauto.
  - intros H. destruct (IH H) as (l1 & l2 & -> & Hy & Hl1).
    exists (x :: l1), l2. repeat split; auto.
    intros z [<-|Hz]; auto.
Qed.

Lemma filter_all {A} (p : A -> bool) (l : list A) :
  (forall x, In x l -> p x = true) -> filter p l = l.
Proof.
  induction l as [|x l IH]; simpl; intros H; [reflexivity|].
  rewrite (H x (or_introl eq_refl)). f_equal. apply IH. auto.
Qed.

Lemma filter_none {A} (p : A -> bool) (l : list A) :
  (forall x, In x l -> p x = false) -> filter p l = [].
Proof.
  induction l as [|x l IH]; simpl; intros H; [reflexivity|].
  rewrite (H x (or_introl eq_refl)). apply IH. auto.
Qed.

Lemma filter_idem {A} (p : A -> bool) (l : list A) :
  filter p (filter p l) = filter p l.
Proof.
  apply filter_all. intros x Hx. apply filter_In in Hx. tauto.
Qed.

Lemma rid_eqb_eq (a b : option Z) : rid_eqb a b = true <-> a = b.
Proof.
  destruct a as [x|], b as [y|]; simpl; split; intros H;
    try discriminate; try reflexivity.
  - apply Z.eqb_eq in H. now subst.
  - injection H as ->. apply Z.eqb_refl.
Qed.

Lemma ostr_eqb_eq (a b : option string) : ostr_eqb a b = true <-> a = b.
Proof.
  destruct a as [x|], b as [y|]; simpl; split; intros H;
    try discriminate; try reflexivity.
  - apply String.eqb_eq in H. now subst.
  - injection H as ->. apply String.eqb_refl.
Qed.

(** ** [sort_values] and [dropna] *)

Section SortFacts.
Variable A : Type.
Variables k1 k2 : A -> option Z.

Lemma insert_row_perm (x : A) (l : list A) :
  Permutation (insert_row A k1 k2 x l) (x :: l).
Proof.
  induction l as [|y l IH]; simpl; [reflexivity|].
  destruct (row_leb A k1 k2 x y); [reflexivity|].
  rewrite IH. apply perm_swap.
Qed.

Lemma sort_values_perm (l : list A) : Permutation (sort_values k1 k2 l) l.
Proof.
  induction l as [|x l IH]; simpl; [reflexivity|].
  unfold sort_values in IH. rewrite insert_row_perm. now constructor.
Qed.

Lemma sort_values_In (l : list A) (x : A) : In x (sort_values k1 k2 l) <-> In x l.
Proof.
  split; apply Permutation_in;
    [apply sort_values_perm | apply Permutation_sym, sort_values_perm].
Qed.

Lemma sort_values_length (l : list A) :
  List.length (sort_values k1 k2 l) = List.length l.
Proof. apply Permutation_length, sort_values_perm. Qed.

Lemma dropna2_In (l : list A) (x : A) :
  In x (dropna2 k1 k2 l) <-> In x l /\ k1 x <> None /\ k2 x <> None.
Proof.
  unfold dropna2. rewrite filter_In, andb_true_iff.
  destruct (k1 x), (k2 x); simpl; intuition congruence.
Qed.
End SortFacts.

(** ** [asof_join] *)

Lemma all_values_some (cs : list (option Z)) (ts : list Z) :
  all_values cs = Some ts -> cs = map Some ts.
Proof.
  revert ts. induction cs as [|[t|] cs IH]; simpl; intros ts H.
  - injection H as <-. reflexivity.
  - destruct (all_values cs) as [ts'|]; [|discriminate].
    injection H as <-. simpl. f_equal. now apply IH.
  - discriminate.
Qed.

Lemma is_monotonic_increasing_sorted (ts : list Z) :
  is_monotonic_increasing ts = true -> StronglySorted Z.le ts.
Proof.
  induction ts as [|x ts IH]; intros H; [constructor|].
  destruct ts as [|y ts]; [repeat constructor|].
  simpl in H. apply andb_true_iff in H as [Hxy Hrest].
  apply Z.leb_le in Hxy. specialize (IH Hrest).
  constructor; [exact IH|].
  inversion IH as [|? ? _ Hy]; subst.
  constructor; [exact Hxy|].
  eapply Forall_impl; [|exact Hy]. simpl. intros; lia.
Qed.

Lemma sorted_is_monotonic_increasing (ts : list Z) :
  StronglySorted Z.le ts -> is_monotonic_increasing ts = true.
Proof.
  induction ts as [|x ts IH]; intros H; [reflexivity|].
  inversion H as [|? ? Hs Hx]; subst.
  destruct ts as [|y ts]; [reflexivity|].
  simpl. apply andb_true_iff. split.
  - apply Z.leb_le. now inversion Hx.
  - now apply IH.
Qed.

Lemma check_on_keys_ok (s : Side) (cs : list (option Z)) :
  check_on_keys s cs = Ok tt <->
  exists ts, cs = map Some ts /\ StronglySorted Z.le ts.
Proof.
  unfold check_on_keys. split.
  - destruct (all_values cs) as [ts|] eqn:E; [|discriminate].
    destruct (is_monotonic_increasing ts) eqn:M; [|discriminate].
    intros _. exists ts. split.
    + now apply all_values_some.
    + now apply is_monotonic_increasing_sorted.
  - intros (ts & -> & Hs).
    assert (E : all_values (map Some ts) = Some ts).
    { clear Hs. induction ts as [|t ts IH]; simpl; [reflexivity|]. now rewrite IH. }
    rewrite E, (sorted_is_monotonic_increasing _ Hs). reflexivity.
Qed.

Section AsofFacts.
Variables L R : Type.
Variables (lby lon : L -> option Z) (rby ron : R -> option Z).

Lemma keys_accepted_iff {X} (s : Side) (on : X -> option Z) (l : list X) :
  check_on_keys s (map on l) = Ok tt <-> keys_accepted on l.
Proof.
  rewrite check_on_keys_ok. unfold keys_accepted. split.
  - intros (ts & E & Hs). split.
    + intros x Hx Hn. apply (in_map on) in Hx. rewrite E, Hn in Hx.
      apply in_map_iff in Hx as (? & ? & _). discriminate.
    + replace (map (fun x => on_value (on x)) l) with ts; [exact Hs|].
      rewrite <- (map_map on on_value), E, map_map. simpl.
      now rewrite map_id.
  - intros [Hn Hs]. exists (map (fun x => on_value (on x)) l). split; [|exact Hs].
    rewrite map_map. apply map_ext_in. intros x Hx.
    specialize (Hn x Hx). destruct (on x); simpl; congruence.
Qed.

Lemma merge_asof_ok (left : list L) (right : list R) out :
  asof_join lby lon rby ron left right = Ok out <->
  keys_accepted lon left /\ keys_accepted ron right
  /\ out = map (fun l => (l, asof_nearest rby ron (lby l) (on_value (lon l)) right)) left.
Proof.
  unfold asof_join, bind.
  rewrite <- (keys_accepted_iff LeftSide), <- (keys_accepted_iff RightSide).
  destruct (check_on_keys LeftSide (map lon left)) as [[]|e1];
    [|split; [discriminate | intros (H & _); discriminate]].
  destruct (check_on_keys RightSide (map ron right)) as [[]|e2];
    [|split; [discriminate | intros (_ & H & _); discriminate]].
  split.
  - intros H. injection H as <-. auto.
  - intros (_ & _ & ->). reflexivity.
Qed.

Lemma sorted_split (f : R -> Z) (l1 l2 : list R) (y : R) :
  StronglySorted Z.le (map f (l1 ++ y :: l2)) ->
  (forall x, In x l1 -> f x <= f y) /\ (forall x, In x l2 -> f y <= f x).
Proof.
  induction l1 as [|a l1 IH]; simpl; intros H; inversion H as [|? ? Hs Ha]; subst.
  - split; [tauto|]. intros x Hx. rewrite Forall_forall in Ha.
    apply Ha, in_map, Hx.
  - destruct (IH Hs) as [H1 H2]. split; [|exact H2].
    intros x [<-|Hx]; [|now apply H1].
    rewrite Forall_forall in Ha. apply Ha, in_map, in_elt.
Qed.

Variable right : list R.
Hypothesis right_ok : keys_accepted ron right.

Lemma asof_backward_some (g : option Z) (t : Z) (b : R) :
  asof_backward rby ron g t right = Some b ->
  In b right /\ rby b = g /\ on_value (ron b) <= t
  /\ forall c, In c right -> rby c = g -> on_value (ron c) <= t ->
               on_value (ron c) <= on_value (ron b).
Proof.
  unfold asof_backward. intros H.
  apply find_last_some in H as (l1 & l2 & E & Hb & Hafter).
  apply andb_true_iff in Hb as [Hg Ht]. apply rid_eqb_eq in Hg.
  destruct right_ok as [Hnn Hs].
  assert (Hin : In b right) by (rewrite E; apply in_elt).
  destruct (ron b) as [u|] eqn:Eb; [|discriminate]. apply Z.leb_le in Ht.
  rewrite E in Hs. apply sorted_split in Hs as [Hl1 Hl2].
  rewrite Eb in *. simpl in *.
  repeat split; auto.
  intros c Hc Hcg Hct. rewrite E in Hc. apply in_app_or in Hc as [Hc|[<-|Hc]].
  - now apply Hl1.
  - rewrite Eb. simpl. lia.
  - exfalso. specialize (Hafter c Hc).
    assert (Hcn : ron c <> None) by (apply Hnn; rewrite E; apply in_or_app; simpl; auto).
    destruct (ron c) as [v|]; [|congruence]. simpl in Hct.
    apply andb_false_iff in Hafter as [Hf|Hf].
    + rewrite (proj2 (rid_eqb_eq _ _) Hcg) in Hf. discriminate.
    + apply Z.leb_gt in Hf. lia.
Qed.

Lemma asof_backward_none (g : option Z) (t : Z) :
  asof_backward rby ron g t right = None ->
  forall c, In c right -> rby c = g -> t < on_value (ron c).
Proof.
  unfold asof_backward. intros H c Hc Hcg.
  pose proof (find_last_none _ _ H c Hc) as Hf. simpl in Hf.
  destruct right_ok as [Hnn _]. specialize (Hnn c Hc).
  destruct (ron c) as [v|]; [|congruence]. simpl.
  rewrite (proj2 (rid_eqb_eq _ _) Hcg) in Hf. simpl in Hf.
  apply Z.leb_gt in Hf. lia.
Qed.

Lemma asof_forward_some (g : option Z) (t : Z) (f : R) :
  asof_forward rby ron g t right = Some f ->
  In f right /\ rby f = g /\ t <= on_value (ron f)
  /\ forall c, In c right -> rby c = g -> t <= on_value (ron c) ->
               on_value (ron f) <= on_value (ron c).
Proof.
  unfold asof_forward. intros H.
  apply find_first_some in H as (l1 & l2 & E & Hb & Hbefore).
  apply andb_true_iff in Hb as [Hg Ht]. apply rid_eqb_eq in Hg.
  destruct right_ok as [Hnn Hs].
  assert (Hin : In f right) by (rewrite E; apply in_elt).
  destruct (ron f) as [u|] eqn:Eb; [|discriminate]. apply Z.leb_le in Ht.
  rewrite E in Hs. apply sorted_split in Hs as [Hl1 Hl2].
  rewrite Eb in *. simpl in *.
  repeat split; auto.
  intros c Hc Hcg Hct. rewrite E in Hc. apply in_app_or in Hc as [Hc|[<-|Hc]].
  - exfalso. specialize (Hbefore c Hc).
    assert (Hcn : ron c <> None) by (apply Hnn; rewrite E; apply in_or_app; simpl; auto).
    destruct (ron c) as [v|]; [|congruence]. simpl in Hct.
    apply andb_false_iff in Hbefore as [Hf|Hf].
    + rewrite (proj2 (rid_eqb_eq _ _) Hcg) in Hf. discriminate.
    + apply Z.leb_gt in Hf. lia.
  - rewrite Eb. simpl. lia.
  - now apply Hl2.
Qed.

Lemma asof_forward_none (g : option Z) (t : Z) :
  asof_forward rby ron g t right = None ->
  forall c, In c right -> rby c = g -> on_value (ron c) < t.
Proof.
  unfold asof_forward. intros H c Hc Hcg.
  pose proof (find_none _ _ H c Hc) as Hf. simpl in Hf.
  destruct right_ok as [Hnn _]. specialize (Hnn c Hc).
  destruct (ron c) as [v|]; [|congruence]. simpl.
  rewrite (proj2 (rid_eqb_eq _ _) Hcg) in Hf. simpl in Hf.
  apply Z.leb_gt in Hf. lia.
Qed.
End AsofFacts.

Section NearestFacts.
Variables L R : Type.
Variables (lby lon : L -> option Z) (rby ron : R -> option Z).

Local Abbreviation rtime r := (on_value (ron r)).

Lemma asof_nearest_in (right : list R) (g : option Z) (t : Z) (r : R) :
  asof_nearest rby ron g t right = Some r -> In r right /\ rby r = g.
Proof.
  unfold asof_nearest, asof_backward, asof_forward.
  set (pb := fun r0 : R => _). set (pf := fun r0 : R => _).
  destruct (find_last pb right) as [b|] eqn:Eb;
    destruct (find pf right) as [f|] eqn:Ef; intros H.
  - apply find_last_some in Eb as (l1 & l2 & E & Hb & _).
    apply find_some in Ef as [Hf1 Hf2].
    destruct (_ <=? _); injection H as <-.
    + subst pb. apply andb_true_iff in Hb as [Hb _]. apply rid_eqb_eq in Hb.
      split; [rewrite E; apply in_elt | exact Hb].
    + subst pf. apply andb_true_iff in Hf2 as [Hf2 _]. apply rid_eqb_eq in Hf2.
      auto.
  - injection H as <-.
    apply find_last_some in Eb as (l1 & l2 & E & Hb & _).
    subst pb. apply andb_true_iff in Hb as [Hb _]. apply rid_eqb_eq in Hb.
    split; [rewrite E; apply in_elt | exact Hb].
  - injection H as <-. apply find_some in Ef as [Hf1 Hf2].
    subst pf. apply andb_true_iff in Hf2 as [Hf2 _]. apply rid_eqb_eq in Hf2.
    auto.
  - discriminate.
Qed.

Lemma asof_nearest_closest (right : list R) (g : option Z) (t : Z) :
  keys_accepted ron right ->
  (exists c, In c right /\ rby c = g) ->
  exists r, asof_nearest rby ron g t right = Some r
    /\ forall c, In c right -> rby c = g ->
         Z.abs (rtime r - t) <= Z.abs (rtime c - t)
         /\ (Z.abs (rtime c - t) = Z.abs (rtime r - t) -> rtime r <= rtime c).
Proof.
  intros Hok (c0 & Hc0 & Hg0). unfold asof_nearest.
  destruct (asof_backward rby ron g t right) as [b|] eqn:Eb;
    destruct (asof_forward rby ron g t right) as [f|] eqn:Ef.
  - apply (asof_backward_some _ _ _ _ Hok) in Eb as (_ & _ & Hbt & Hbmax).
    apply (asof_forward_some _ _ _ _ Hok) in Ef as (_ & _ & Hft & Hfmin).
    destruct (t - rtime b <=? rtime f - t) eqn:D;
      [apply Z.leb_le in D | apply Z.leb_gt in D];
      eexists; (split; [reflexivity|]); intros c Hc Hg;
      specialize (Hbmax c Hc Hg); specialize (Hfmin c Hc Hg); lia.
  - apply (asof_backward_some _ _ _ _ Hok) in Eb as (_ & _ & Hbt & Hbmax).
    pose proof (asof_forward_none _ _ _ _ Hok _ _ Ef) as Hnone.
    eexists; (split; [reflexivity|]); intros c Hc Hg.
    specialize (Hbmax c Hc Hg); specialize (Hnone c Hc Hg); lia.
  - apply (asof_forward_some _ _ _ _ Hok) in Ef as (_ & _ & Hft & Hfmin).
    pose proof (asof_backward_none _ _ _ _ Hok _ _ Eb) as Hnone.
    eexists; (split; [reflexivity|]); intros c Hc Hg.
    specialize (Hfmin c Hc Hg); specialize (Hnone c Hc Hg); lia.
  - pose proof (asof_backward_none _ _ _ _ Hok _ _ Eb c0 Hc0 Hg0).
    pose proof (asof_forward_none _ _ _ _ Hok _ _ Ef c0 Hc0 Hg0). lia.
Qed.

Lemma asof_nearest_none (right : list R) (g : option Z) (t : Z) :
  (forall c, In c right -> rby c <> g) ->
  asof_nearest rby ron g t right = None.
Proof.
  intros H. destruct (asof_nearest rby ron g t right) as [r|] eqn:E; [|reflexivity].
  apply asof_nearest_in in E as [Hin Hg]. now destruct (H r Hin).
Qed.

Lemma merge_asof_length (left : list L) (right : list R) out :
  asof_join lby lon rby ron left right = Ok out ->
  map fst out = left.
Proof.
  intros H. apply merge_asof_ok in H as (_ & _ & ->).
  rewrite map_map. simpl. apply map_id.
Qed.
End NearestFacts.

(** ** The two ways the script calls [merge_asof] *)

Section StageFacts.
Variables L R : Type.
Variables (lby lon : L -> option Z) (rby ron : R -> option Z).

Lemma merge_asof_scoped (left : list L) (right : list R) out l r :
  asof_join lby lon rby ron left right = Ok out ->
  In (l, Some r) out -> In l left /\ In r right /\ lby l = rby r.
Proof.
  intros H Hin. apply merge_asof_ok in H as (_ & _ & ->).
  apply in_map_iff in Hin as (l' & E & Hl). injection E as -> E.
  apply asof_nearest_in in E as [Hr Hg]. auto.
Qed.

Lemma merge_asof_nearest (left : list L) (right : list R) out l m :
  asof_join lby lon rby ron left right = Ok out ->
  In (l, m) out ->
  (exists c, In c right /\ rby c = lby l) ->
  exists r tl tr,
    m = Some r /\ In l left /\ In r right /\ rby r = lby l
    /\ lon l = Some tl /\ ron r = Some tr
    /\ forall c, In c right -> rby c = lby l ->
         exists tc, ron c = Some tc
           /\ Z.abs (tr - tl) <= Z.abs (tc - tl)
           /\ (Z.abs (tc - tl) = Z.abs (tr - tl) -> tr <= tc).
Proof.
  intros H Hin Hc. apply merge_asof_ok in H as (Hl & Hr & ->).
  apply in_map_iff in Hin as (l' & E & Hl'). injection E as -> <-.
  destruct (asof_nearest_closest _ rby ron right (lby l) (on_value (lon l)) Hr Hc)
    as (r & Er & Hmin).
  pose proof (asof_nearest_in _ _ _ _ _ _ _ Er) as [Hrin Hrg].
  destruct Hl as [Hln _]. specialize (Hln l Hl').
  destruct (lon l) as [tl|] eqn:El; [|congruence].
  destruct Hr as [Hrn _]. pose proof (Hrn r Hrin) as Hrr.
  destruct (ron r) as [tr|] eqn:Etr; [|congruence].
  exists r, tl, tr. repeat split; auto.
  intros c Hcin Hcg. specialize (Hmin c Hcin Hcg). specialize (Hrn c Hcin).
  destruct (ron c) as [tc|]; [|congruence].
  exists tc. simpl in Hmin. tauto.
Qed.

Lemma merge_asof_unmatched (left : list L) (right : list R) out l m :
  asof_join lby lon rby ron left right = Ok out ->
  In (l, m) out ->
  (forall c, In c right -> rby c <> lby l) ->
  m = None.
Proof.
  intros H Hin Hc. apply merge_asof_ok in H as (_ & _ & ->).
  apply in_map_iff in Hin as (l' & E & _). injection E as -> <-.
  now apply asof_nearest_none.
Qed.

Lemma dtype_eqb_eq (a b : Dtype) : dtype_eqb a b = true <-> a = b.
Proof. destruct a, b; simpl; split; intros H; congruence. Qed.

Lemma merge_asof_inv (ldt rdt : Dtype) (left : list L) (right : list R) out :
  merge_asof lby lon rby ron ldt rdt left right = Ok out <->
  ldt = rdt /\ asof_join lby lon rby ron left right = Ok out.
Proof.
  unfold merge_asof. destruct (dtype_eqb ldt rdt) eqn:E.
  - apply dtype_eqb_eq in E. tauto.
  - split; [discriminate|]. intros [H _]. apply dtype_eqb_eq in H. congruence.
Qed.

(** [attach_nearest_visit]: the frames are cleared of nulls first. *)

Lemma attach_nearest_visit_inv (ldt rdt : Dtype) (pet : list L) (reg : list R)
      (col : string) (keep : list string) out :
  attach_nearest_visit lby lon rby ron ldt rdt pet reg col keep = Ok out <->
  duplicated_key_label col keep = None /\ ldt = rdt
  /\ asof_join lby lon rby ron (sort_values lby lon (dropna2 lby lon pet))
                (sort_values rby ron (dropna2 rby ron reg)) = Ok out.
Proof.
  unfold attach_nearest_visit.
  destruct (duplicated_key_label col keep) as [label|].
  - split; [discriminate | intros [H _]; discriminate].
  - rewrite merge_asof_inv. tauto.
Qed.

Lemma attach_nearest_visit_scoped (ldt rdt : Dtype) (pet : list L) (reg : list R)
      (col : string) (keep : list string) out l r :
  attach_nearest_visit lby lon rby ron ldt rdt pet reg col keep = Ok out ->
  In (l, Some r) out -> In l pet /\ In r reg /\ lby l = rby r.
Proof.
  intros H Hin. apply attach_nearest_visit_inv in H as (_ & _ & H).
  destruct (merge_asof_scoped _ _ _ _ _ H Hin) as (Hl & Hr & E).
  apply sort_values_In, dropna2_In in Hl. apply sort_values_In, dropna2_In in Hr.
  tauto.
Qed.


(** The inline calls of sections 5 and 9: the frames are only sorted. *)

Lemma merge_asof_sorted_inv (ldt rdt : Dtype) (left : list L) (right : list R) out :
  merge_asof_sorted lby lon rby ron ldt rdt left right = Ok out <->
  ldt = rdt
  /\ asof_join lby lon rby ron (sort_values lby lon left) (sort_values rby ron right)
     = Ok out.
Proof. unfold merge_asof_sorted. apply merge_asof_inv. Qed.

Lemma merge_asof_sorted_scoped (ldt rdt : Dtype) (left : list L) (right : list R)
      out l r :
  merge_asof_sorted lby lon rby ron ldt rdt left right = Ok out ->
  In (l, Some r) out -> In l left /\ In r right /\ lby l = rby r.
Proof.
  intros H Hin. apply merge_asof_sorted_inv in H as [_ H].
  destruct (merge_asof_scoped _ _ _ _ _ H Hin) as (Hl & Hr & E).
  apply sort_values_In in Hl. apply sort_values_In in Hr. tauto.
Qed.

Lemma merge_asof_sorted_nearest (ldt rdt : Dtype) (left : list L) (right : list R)
      out l m :
  merge_asof_sorted lby lon rby ron ldt rdt left right = Ok out ->
  In (l, m) out ->
  (exists c tc, In c right /\ rby c = lby l /\ ron c = Some tc) ->
  exists r tl tr,
    m = Some r /\ In l left /\ In r right /\ rby r = lby l
    /\ lon l = Some tl /\ ron r = Some tr
    /\ forall c tc, In c right -> rby c = lby l -> ron c = Some tc ->
         Z.abs (tr - tl) <= Z.abs (tc - tl)
         /\ (Z.abs (tc - tl) = Z.abs (tr - tl) -> tr <= tc).
Proof.
  intros H Hin (c0 & tc0 & Hc0 & Hg0 & Ht0).
  apply merge_asof_sorted_inv in H as [_ H].
  destruct (merge_asof_nearest _ _ _ _ _ H Hin) as (r & tl & tr & Hm & Hl & Hr & Hg & Htl & Htr & Hmin).
  { exists c0. split; [now apply sort_values_In | exact Hg0]. }
  exists r, tl, tr.
  apply sort_values_In in Hl. apply sort_values_In in Hr.
  do 6 (split; [tauto|]).
  intros c tc Hc Hcg Hct.
  destruct (Hmin c (proj2 (sort_values_In _ _ _ _ _) Hc) Hcg) as (tc' & E & H1 & H2).
  assert (tc' = tc) by congruence. subst. auto.
Qed.
End StageFacts.

(** ** Subject scoping and nearest match *)

(** C1. In every nearest-timestamp matching stage a left row is only ever
    paired with a right row of the same subject key, however close the
    timestamps of other subjects are: in the joined frame of
    [attach_nearest_visit], whatever its arguments, in the joined frame of
    the tau-to-assessment join and in that of the tau-to-amyloid join. *)
Theorem subject_scoping :
  (forall (L R : Type) (lby lon : L -> option Z) (rby ron : R -> option Z)
          (pet_rid_dtype reg_rid_dtype : Dtype) (pet_df : list L)
          (registry_df : list R) (reg_date_col : string)
          (keep_reg_cols : list string) out l r,
     attach_nearest_visit lby lon rby ron pet_rid_dtype reg_rid_dtype
                          pet_df registry_df reg_date_col keep_reg_cols = Ok out ->
     In (l, Some r) out ->
     In l pet_df /\ In r registry_df /\ lby l = rby r)
  /\ (forall (dl dr : Dtype) (tau_merged : list TauMergedRow)
             (adni2 : list AdniRow) out l r,
        tau_adni dl dr tau_merged adni2 = Ok out ->
        In (l, Some r) out ->
        In l tau_merged /\ In r adni2 /\ tm_rid l = a_rid r)
  /\ (forall (dl dr : Dtype) (tau_adni : list TauApoeRow)
             (amy_merged : list AmyMergedRow) out l r,
        tau_amy dl dr tau_adni amy_merged = Ok out ->
        In (l, Some r) out ->
        In l tau_adni /\ In r amy_merged /\ ta_rid l = am_rid r).
Proof.
  split; [|split]; intros.
  - eapply attach_nearest_visit_scoped; eauto.
  - eapply merge_asof_sorted_scoped; eauto.
  - eapply merge_asof_sorted_scoped; eauto.
Qed.


Lemma subject_scoping_witness :
  (tau_adni Int64 Int64 [scan_1_day100] adni_two_subjects
   = Ok [(scan_1_day100, Some (adni_row 1 90 "CN"))]
   /\ In scan_1_day100 [scan_1_day100]
   /\ In (adni_row 1 90 "CN") adni_two_subjects
   /\ tm_rid scan_1_day100 = a_rid (adni_row 1 90 "CN"))
  /\ (attach_nearest_visit scan_rid scan_date g_rid g_examdate Int64 Int64
                           [(meta_row 1 "bl" 100, None)]
                           [reg_row 2 "bl" 100; reg_row 1 "bl" 70]
                           "EXAMDATE" ["VISCODE"; "VISCODE2"]%string
      = Ok [((meta_row 1 "bl" 100, None), Some (reg_row 1 "bl" 70))]
      /\ scan_rid (meta_row 1 "bl" 100, None) = g_rid (reg_row 1 "bl" 70)).
Proof.
  assert (Hrun : tau_adni Int64 Int64 [scan_1_day100] adni_two_subjects
                 = Ok [(scan_1_day100, Some (adni_row 1 90 "CN"))])
    by (vm_compute; reflexivity).
  assert (Hatt : attach_nearest_visit scan_rid scan_date g_rid g_examdate Int64 Int64
                   [(meta_row 1 "bl" 100, None)]
                   [reg_row 2 "bl" 100; reg_row 1 "bl" 70]
                   "EXAMDATE" ["VISCODE"; "VISCODE2"]%string
                 = Ok [((meta_row 1 "bl" 100, None), Some (reg_row 1 "bl" 70))])
    by (vm_compute; reflexivity).
  split.
  - split; [exact Hrun|].
    exact (proj1 (proj2 subject_scoping) _ _ _ _ _ _ _ Hrun (or_introl eq_refl)).
  - split; [exact Hatt|].
    exact (proj2 (proj2 (proj1 subject_scoping _ _ _ _ _ _ _ _ _ _ _ _ _ _ _
                           Hatt (or_introl eq_refl)))).
Defined.


(** ** Exact-key [merge] *)

Section MergeFacts.
Variables L R K : Type.
Variable key_eqb : K -> K -> bool.
Variables (lkey : L -> K) (rkey : R -> K).

Lemma merge_left_some (left : list L) (right : list R) l r :
  In (l, Some r) (merge_left key_eqb lkey rkey left right) <->
  In l left /\ In r right /\ key_eqb (lkey l) (rkey r) = true.
Proof.
  unfold merge_left. rewrite in_flat_map. split.
  - intros (l' & Hl' & Hin).
    destruct (partners key_eqb lkey rkey l' right) as [|r0 rs] eqn:E.
    + simpl in Hin. destruct Hin as [Hin|[]]. discriminate.
    + rewrite <- E in Hin. apply in_map_iff in Hin as (r' & Er & Hr').
      injection Er as -> ->. apply filter_In in Hr'. tauto.
  - intros (Hl & Hr & Hk). exists l. split; [exact Hl|].
    assert (Hp : In r (partners key_eqb lkey rkey l right))
      by (apply filter_In; auto).
    destruct (partners key_eqb lkey rkey l right) as [|r0 rs] eqn:E; [destruct Hp|].
    rewrite <- E. apply in_map_iff. exists r. rewrite E. auto.
Qed.

Lemma merge_left_none (left : list L) (right : list R) l :
  In (l, None) (merge_left key_eqb lkey rkey left right) <->
  In l left /\ forall r, In r right -> key_eqb (lkey l) (rkey r) = false.
Proof.
  unfold merge_left. rewrite in_flat_map. split.
  - intros (l' & Hl' & Hin).
    destruct (partners key_eqb lkey rkey l' right) as [|r0 rs] eqn:E.
    + simpl in Hin. destruct Hin as [Hin|[]]. injection Hin as ->.
      split; [exact Hl'|]. intros r Hr.
      destruct (key_eqb (lkey l) (rkey r)) eqn:Hk; [|reflexivity].
      assert (Hp : In r (partners key_eqb lkey rkey l right))
        by (apply filter_In; auto).
      rewrite E in Hp. destruct Hp.
    + rewrite <- E in Hin. apply in_map_iff in Hin as (r' & Er & _). discriminate.
  - intros (Hl & Hno). exists l. split; [exact Hl|].
    assert (E : partners key_eqb lkey rkey l right = []).
    { unfold partners. induction right as [|r rs IH]; simpl; [reflexivity|].
      rewrite (Hno r (or_introl eq_refl)). apply IH. intros; apply Hno; now right. }
    rewrite E. now left.
Qed.

Lemma merge_left_fst (left : list L) (right : list R) l m :
  In (l, m) (merge_left key_eqb lkey rkey left right) -> In l left.
Proof.
  destruct m as [r|]; [rewrite merge_left_some | rewrite merge_left_none]; tauto.
Qed.
End MergeFacts.

(** ** [drop_duplicates] *)

Section DropDuplicatesFacts.
Variables A K : Type.
Variable key_eqb : K -> K -> bool.
Variable key : A -> K.
Hypothesis key_eqb_eq : forall a b, key_eqb a b = true <-> a = b.

Lemma same_key_false (x y : A) : same_key key_eqb key x y = false <-> key y <> key x.
Proof.
  unfold same_key. destruct (key_eqb (key x) (key y)) eqn:E; split; intros H;
    try discriminate; try reflexivity.
  - apply key_eqb_eq in E. congruence.
  - intros E'. rewrite <- E' in E.
    rewrite (proj2 (key_eqb_eq _ _) eq_refl) in E. discriminate.
Qed.

Lemma existsb_same_key (x : A) (l : list A) :
  existsb (same_key key_eqb key x) l = true <-> exists y, In y l /\ key y = key x.
Proof.
  rewrite existsb_exists. split; intros (y & Hy & E); exists y; split; auto.
  - apply key_eqb_eq in E. congruence.
  - apply key_eqb_eq. congruence.
Qed.

Lemma drop_duplicates_last_incl (l : list A) (x : A) :
  In x (drop_duplicates_last key_eqb key l) -> In x l.
Proof.
  induction l as [|a l IH]; simpl; [tauto|].
  destruct (existsb (same_key key_eqb key a) l); simpl; intuition.
Qed.

(** Among the kept rows, those of one key [k] present in the input are a
    single row: the last row of the input that carries [k]. *)
Lemma drop_duplicates_last_one (l : list A) (k : K) :
  In k (map key l) ->
  exists x l1 l2,
    filter (fun y => key_eqb (key y) k) (drop_duplicates_last key_eqb key l) = [x]
    /\ l = l1 ++ x :: l2 /\ key x = k /\ forall y, In y l2 -> key y <> k.
Proof.
  induction l as [|a l IH]; simpl; [tauto|]. intros Hk.
  destruct (existsb (same_key key_eqb key a) l) eqn:Ex.
  - assert (Hk' : In k (map key l)).
    { destruct Hk as [Ha|Hk]; [|exact Hk].
      apply existsb_same_key in Ex as (y & Hy & E).
      apply in_map_iff. exists y. split; [congruence | exact Hy]. }
    destruct (IH Hk') as (x & l1 & l2 & Hf & -> & Hx & Hl2).
    exists x, (a :: l1), l2. auto.
  - simpl. destruct (key_eqb (key a) k) eqn:Ea.
    + apply key_eqb_eq in Ea.
      assert (Hnone : forall y, In y l -> key y <> k).
      { intros y Hy E.
        assert (Hex : existsb (same_key key_eqb key a) l = true).
        { apply existsb_same_key. exists y. split; [exact Hy | congruence]. }
        congruence. }
      exists a, [], l. repeat split; auto. f_equal.
      apply filter_none. intros y Hy. apply drop_duplicates_last_incl in Hy.
      destruct (key_eqb (key y) k) eqn:Ey; [|reflexivity].
      apply key_eqb_eq in Ey. now destruct (Hnone y Hy).
    + assert (Hk' : In k (map key l)).
      { destruct Hk as [Ha|Hk]; [|exact Hk]. subst k.
        rewrite (proj2 (key_eqb_eq _ _) eq_refl) in Ea. discriminate. }
      destruct (IH Hk') as (x & l1 & l2 & Hf & -> & Hx & Hl2).
      exists x, (a :: l1), l2. auto.
Qed.

Lemma drop_duplicates_last_NoDup (l : list A) :
  NoDup (map key (drop_duplicates_last key_eqb key l)).
Proof.
  induction l as [|a l IH]; simpl; [constructor|].
  destruct (existsb (same_key key_eqb key a) l) eqn:Ex; [exact IH|].
  simpl. constructor; [|exact IH].
  intros Hin. apply in_map_iff in Hin as (y & E & Hy).
  apply drop_duplicates_last_incl in Hy.
  assert (existsb (same_key key_eqb key a) l = true); [|congruence].
  apply existsb_same_key. eauto.
Qed.
End DropDuplicatesFacts.

Lemma filter_map_comm {A B} (f : A -> B) (p : B -> bool) (l : list A) :
  filter p (map f l) = map f (filter (fun x => p (f x)) l).
Proof.
  induction l as [|x l IH]; simpl; [reflexivity|].
  destruct (p (f x)); simpl; now rewrite IH.
Qed.

(** ** [add_apoe4_status] *)

(** C7. For every genotype frame and every subject key occurring in it,
    exactly one record of that subject survives the deduplication, and it is
    the record that comes last in input order; the status frame holds for
    that subject the risk score of that last record.  On the three rows
    3/4, 2/2, 4/4 of subject 7 the kept row is 4/4, and the fixed lookup
    table maps it to 2. *)
Theorem dedup_keeps_last_record :
  (forall (apoe_df : list ApoeRow) (k : option Z),
     In k (map ap_rid apoe_df) ->
     exists x l1 l2,
       apoe_df = l1 ++ x :: l2 /\ ap_rid x = k
       /\ (forall y, In y l2 -> ap_rid y <> k)
       /\ filter (fun y => rid_eqb (ap_rid y) k)
                 (drop_duplicates_last rid_eqb ap_rid apoe_df) = [x]
       /\ filter (fun s => rid_eqb (s_rid s) k) (add_apoe4_status apoe_df)
          = [{| s_rid := k; s_apoe4 := map_mapping (ap_genotype x) |}])
  /\ drop_duplicates_last rid_eqb ap_rid genotypes_rid7 = [genotype_row 7 "4/4"]
  /\ add_apoe4_status genotypes_rid7 = [{| s_rid := Some 7; s_apoe4 := Some 2 |}]
  /\ mapping = [("2/2", 0); ("2/3", 0); ("3/3", 0);
                ("2/4", 1); ("3/4", 1); ("4/4", 2)]%string.
Proof.
  split; [|repeat split].
  intros apoe_df k Hk.
  destruct (drop_duplicates_last_one _ _ rid_eqb ap_rid rid_eqb_eq apoe_df k Hk)
    as (x & l1 & l2 & Hf & E & Hx & Hl2).
  exists x, l1, l2. repeat split; auto.
  unfold add_apoe4_status. rewrite filter_map_comm. simpl.
  rewrite Hf. simpl. now rewrite Hx.
Qed.

Lemma dedup_keeps_last_record_witness :
  In (Some 7) (map ap_rid genotypes_rid7)
  /\ exists x l1 l2,
       genotypes_rid7 = l1 ++ x :: l2 /\ ap_rid x = Some 7
       /\ (forall y, In y l2 -> ap_rid y <> Some 7)
       /\ filter (fun y => rid_eqb (ap_rid y) (Some 7))
                 (drop_duplicates_last rid_eqb ap_rid genotypes_rid7) = [x]
       /\ filter (fun s => rid_eqb (s_rid s) (Some 7)) (add_apoe4_status genotypes_rid7)
          = [{| s_rid := Some 7; s_apoe4 := map_mapping (ap_genotype x) |}].
Proof.
  assert (Hk : In (Some 7) (map ap_rid genotypes_rid7)) by (simpl; tauto).
  split; [exact Hk|].
  exact (proj1 dedup_keeps_last_record genotypes_rid7 (Some 7) Hk).
Defined.

(** ** [filter_pet_qc] *)

(** C8. For every frame and every fixed choice of QC column, pass value,
    tracer column and exclusion list, filtering an already filtered frame
    changes nothing.  The schema is kept, and a row is retained exactly when
    the QC column is absent from the schema or the row's QC cell equals the
    pass value, and (when a non-empty exclusion list is given and the tracer
    column exists) its tracer cell is not in the list. *)
Theorem filter_pet_qc_idempotent :
  forall (Row : Type) (cell : string -> Row -> Cell) (df : DataFrame Row)
         (qc_col : string) (qc_pass : Cell) (tracer_col : string)
         (exclude_tracers : option (list Cell)),
    let once := filter_pet_qc cell df qc_col qc_pass tracer_col exclude_tracers in
    filter_pet_qc cell once qc_col qc_pass tracer_col exclude_tracers = once
    /\ columns once = columns df
    /\ forall r, In r (rows once) <->
         In r (rows df)
         /\ (in_columns qc_col (columns df) = false
             \/ cell_eq (cell qc_col r) qc_pass = true)
         /\ (truthy exclude_tracers = true ->
             in_columns tracer_col (columns df) = true ->
             isin (cell tracer_col r) (exclusion_list exclude_tracers) = false).
Proof.
  intros Row cell df qc_col qc_pass tracer_col excl. unfold filter_pet_qc.
  destruct (in_columns qc_col (columns df)) eqn:Hq;
    destruct (truthy excl) eqn:Ht; simpl;
    destruct (in_columns tracer_col (columns df)) eqn:Hc; simpl;
    rewrite ?Hq, ?Ht, ?Hc; simpl; rewrite ?Hq, ?Ht, ?Hc; simpl;
    (split; [|split; [reflexivity|]]).
  all: try reflexivity.
  all: try (f_equal; rewrite ?filter_idem; try reflexivity).
  - rewrite (filter_all (fun r => cell_eq (cell qc_col r) qc_pass)).
    + apply filter_idem.
    + intros x Hx. apply filter_In in Hx as [Hx _]. apply filter_In in Hx. tauto.
  - intros r. rewrite !filter_In, negb_true_iff. intuition congruence.
  - intros r. rewrite !filter_In. intuition congruence.
  - intros r. rewrite !filter_In. intuition congruence.
  - intros r. rewrite !filter_In. intuition congruence.
  - intros r. rewrite !filter_In, negb_true_iff. intuition congruence.
  - intros r. intuition congruence.
  - intros r. intuition congruence.
  - intros r. intuition congruence.
Qed.

(** ** The tolerance gate *)

Lemma scandiff_days_floor (row : TauAmyRow) (g : Z) :
  AMY_TAU_SCANDIFF_DAYS row = Some g <->
  exists a t, SCANDATE_AMY row = Some a /\ SCANDATE_TAU row = Some t
              /\ g * ns_per_day <= a - t < (g + 1) * ns_per_day.
Proof.
  unfold AMY_TAU_SCANDIFF_DAYS.
  destruct (SCANDATE_AMY row) as [a|], (SCANDATE_TAU row) as [t|]; split;
    try discriminate; try (intros (a' & t' & H1 & H2 & _); discriminate).
  - intros H. injection H as <-. exists a, t. repeat split.
    + pose proof (Z.mul_div_le (a - t) ns_per_day). unfold ns_per_day in *. lia.
    + pose proof (Z.mul_succ_div_gt (a - t) ns_per_day). unfold ns_per_day in *. lia.
  - intros (a' & t' & H1 & H2 & Hlo & Hhi). injection H1 as <-. injection H2 as <-.
    f_equal. symmetry.
    apply Z.div_unique with (r := a - t - g * ns_per_day); unfold ns_per_day in *; lia.
Qed.

(** C4. After the cross-modality nearest join the gap in days is the
    amyloid scan date minus the tau scan date, in whole days (rounded
    down): on a matched row the amyloid date is the one of the matched
    amyloid row and the tau date the one of the left row.  The gate keeps a
    joined row exactly when the absolute gap is below 365: a row with gap
    364 is kept, a row with gap 365 is dropped.  So a matched pair whose
    dates differ by exactly 364 days is kept, one whose dates differ by
    exactly 365 days is dropped, and so is a tau row matched to no amyloid
    row. *)
Theorem tolerance_gate_exclusive_at_365 :
  forall (dl dr : Dtype) (tau_adni : list TauApoeRow)
         (amy_merged : list AmyMergedRow) joined,
    tau_amy dl dr tau_adni amy_merged = Ok joined ->
    cross_modality_alignment dl dr tau_adni amy_merged = Ok (tolerance_gate joined)
    /\ (forall row,
         (forall g, AMY_TAU_SCANDIFF_DAYS row = Some g <->
            exists a t, SCANDATE_AMY row = Some a /\ SCANDATE_TAU row = Some t
                        /\ g * ns_per_day <= a - t < (g + 1) * ns_per_day)
         /\ (In row (tolerance_gate joined) <->
             In row joined
             /\ exists g, AMY_TAU_SCANDIFF_DAYS row = Some g /\ Z.abs g < 365)
         /\ (In row joined -> AMY_TAU_SCANDIFF_DAYS row = Some 364 ->
             In row (tolerance_gate joined))
         /\ (AMY_TAU_SCANDIFF_DAYS row = Some 365 ->
             ~ In row (tolerance_gate joined)))
    /\ (forall l a,
          SCANDATE_AMY (l, Some a) = am_scandate_amy a
          /\ SCANDATE_TAU (l, Some a) = ta_scandate_tau l)
    /\ (forall l a ta tt,
          In (l, Some a) joined ->
          am_scandate_amy a = Some ta -> ta_scandate_tau l = Some tt ->
          (ta - tt = 364 * ns_per_day -> In (l, Some a) (tolerance_gate joined))
          /\ (ta - tt = 365 * ns_per_day -> ~ In (l, Some a) (tolerance_gate joined)))
    /\ (forall l, ~ In (l, None) (tolerance_gate joined)).
Proof.
  intros dl dr tau_adni amy_merged joined H.
  split; [unfold cross_modality_alignment, bind; now rewrite H|].
  assert (Hgate : forall row, In row (tolerance_gate joined) <->
             In row joined
             /\ exists g, AMY_TAU_SCANDIFF_DAYS row = Some g /\ Z.abs g < 365).
  { intros row. unfold tolerance_gate, within_a_year. rewrite filter_In.
    destruct (AMY_TAU_SCANDIFF_DAYS row) as [g|].
    - rewrite Z.ltb_lt. split.
      + intros [H1 H2]. split; [exact H1|]. now exists g.
      + intros [H1 (g' & E & H2)]. injection E as <-. tauto.
    - split; [intros [_ H1]; discriminate | intros [_ (g' & E & _)]; discriminate]. }
  assert (Hdays : forall l a ta tt,
            am_scandate_amy a = Some ta -> ta_scandate_tau l = Some tt ->
            AMY_TAU_SCANDIFF_DAYS (l, Some a) = Some ((ta - tt) / ns_per_day)).
  { intros l a ta tt Ha Ht. unfold AMY_TAU_SCANDIFF_DAYS, SCANDATE_AMY, SCANDATE_TAU.
    cbn [fst snd]. now rewrite Ha, Ht. }
  split; [|split; [|split]].
  - intros row. split; [apply scandiff_days_floor|].
    split; [apply Hgate|]. split.
    + intros Hin Hg. apply Hgate. split; [exact Hin|].
      exists 364. split; [exact Hg|lia].
    + intros Hg Hin. apply Hgate in Hin as [_ (g & E & Hlt)].
      rewrite Hg in E. injection E as <-. lia.
  - intros l a. split; reflexivity.
  - intros l a ta tt Hin Ha Ht. pose proof (Hdays l a ta tt Ha Ht) as Hd. split.
    + intros E. apply Hgate. split; [exact Hin|]. exists 364. split; [|lia].
      rewrite Hd, E, Z.div_mul by (unfold ns_per_day; lia). reflexivity.
    + intros E Hg. apply Hgate in Hg as [_ (g & Eg & Hlt)].
      rewrite Hd, E, Z.div_mul in Eg by (unfold ns_per_day; lia).
      injection Eg as <-. lia.
  - intros l Hg. apply Hgate in Hg as [_ (g & Eg & _)]. discriminate.
Qed.

Lemma tolerance_gate_exclusive_at_365_witness :
  tau_amy Int64 Int64 [tau_scan 1 1000] [amy_scan 1 1364; amy_scan 2 1365]
  = Ok [pair_364]
  /\ cross_modality_alignment Int64 Int64 [tau_scan 1 1000]
                              [amy_scan 1 1364; amy_scan 2 1365]
     = Ok [pair_364]
  /\ AMY_TAU_SCANDIFF_DAYS pair_364 = Some 364
  /\ In pair_364 (tolerance_gate [pair_364])
  /\ AMY_TAU_SCANDIFF_DAYS pair_365 = Some 365
  /\ ~ In pair_365 (tolerance_gate [pair_364]).
Proof.
  assert (H : tau_amy Int64 Int64 [tau_scan 1 1000] [amy_scan 1 1364; amy_scan 2 1365]
              = Ok [pair_364]) by (vm_compute; reflexivity).
  assert (Hin : In pair_364 [pair_364]) by (left; reflexivity).
  assert (H364 : AMY_TAU_SCANDIFF_DAYS pair_364 = Some 364)
    by (vm_compute; reflexivity).
  assert (H365 : AMY_TAU_SCANDIFF_DAYS pair_365 = Some 365)
    by (vm_compute; reflexivity).
  pose proof (tolerance_gate_exclusive_at_365 _ _ _ _ _ H) as [H1 [H2 _]].
  split; [exact H|]. split; [exact H1|]. split; [exact H364|].
  split; [exact (proj1 (proj2 (proj2 (H2 pair_364))) Hin H364)|].
  split; [exact H365|]. exact (proj2 (proj2 (proj2 (H2 pair_365))) H365).
Defined.

(** ** Rows of the final table *)

Lemma drop_duplicates_last_In {A K} (key_eqb : K -> K -> bool) (key : A -> K)
      (l : list A) (x : A) :
  (forall a b, key_eqb a b = true <-> a = b) ->
  In x (drop_duplicates_last key_eqb key l) ->
  exists l1 l2, l = l1 ++ x :: l2 /\ forall y, In y l2 -> key y <> key x.
Proof.
  intros Heq Hx.
  assert (Hk : In (key x) (map key l))
    by (apply in_map, (drop_duplicates_last_incl _ _ key_eqb key), Hx).
  destruct (drop_duplicates_last_one _ _ key_eqb key Heq l (key x) Hk)
    as (x' & l1 & l2 & Hf & E & Hx' & Hl2).
  assert (Hin : In x (filter (fun y => key_eqb (key y) (key x))
                             (drop_duplicates_last key_eqb key l))).
  { apply filter_In. split; [exact Hx|]. now apply Heq. }
  rewrite Hf in Hin. destruct Hin as [<-|[]].
  exists l1, l2. auto.
Qed.

Lemma tau_adni_apoe_In (tadni : list TauAdniRow) (apoe_raw : list ApoeRow)
      (x : TauApoeRow) :
  In x (tau_adni_apoe tadni apoe_raw) ->
  exists g l1 l2 s v d,
    apoe_raw = l1 ++ g :: l2 /\ ap_rid g = ta_rid x
    /\ (forall y, In y l2 -> ap_rid y <> ap_rid g)
    /\ ap_genotype g = Some s /\ dict_get mapping s = Some v
    /\ ta_apoe4 x = Some v /\ ta_dx x = Some d.
Proof.
  unfold tau_adni_apoe. intros Hx. apply filter_In in Hx as [Hx Hnn].
  apply andb_true_iff in Hnn as [Ha Hd].
  destruct x as [x [st|]]; [|discriminate].
  apply merge_left_some in Hx as (_ & Hst & Hk). apply rid_eqb_eq in Hk.
  unfold add_apoe4_status in Hst. apply in_map_iff in Hst as (g & <- & Hg).
  apply (drop_duplicates_last_In rid_eqb ap_rid _ _ rid_eqb_eq) in Hg
    as (l1 & l2 & E & Hl2).
  unfold ta_apoe4 in *. cbn [snd s_apoe4 s_rid] in *. unfold map_mapping in *.
  destruct (ap_genotype g) as [s|] eqn:Eg; [|discriminate].
  destruct (dict_get mapping s) as [v|] eqn:Ev; [|discriminate].
  set (row := (x, Some {| s_rid := ap_rid g; s_apoe4 := Some v |})) in *.
  destruct (ta_dx row) as [d|] eqn:Ed; [|discriminate].
  exists g, l1, l2, s, v, d. unfold ta_rid. cbn [fst row].
  repeat split; auto.
Qed.

(** C9. Every row of the final table has a non-null APOE4 risk score and a
    non-null DX: its subject has a genotype record, and the last such
    record carries one of the six genotype strings of the lookup table.  So
    a subject without genotype record, and a subject none of whose records
    carries one of the six strings, has no row in the final table.  The
    rows of the final table are those the cross-modality alignment leaves
    of the tau frame after the genotype merge and its null filter, whatever
    the tau-to-assessment frame and the amyloid frame are; the region
    selection that follows only selects columns. *)
Theorem final_rows_have_apoe4_and_dx :
  forall (dl dr : Dtype) (tau_adni : list TauAdniRow) (apoe_raw : list ApoeRow)
         (amy_merged : list AmyMergedRow) (tau_amy : list TauAmyRow),
    cross_modality_alignment dl dr (tau_adni_apoe tau_adni apoe_raw) amy_merged
    = Ok tau_amy ->
    (forall row, In row tau_amy ->
       exists g l1 l2 s v d,
         apoe_raw = l1 ++ g :: l2 /\ ap_rid g = ta_rid (fst row)
         /\ (forall y, In y l2 -> ap_rid y <> ap_rid g)
         /\ ap_genotype g = Some s /\ dict_get mapping s = Some v
         /\ ta_apoe4 (fst row) = Some v /\ ta_dx (fst row) = Some d)
    /\ (forall k, (forall g, In g apoe_raw -> ap_rid g <> k) ->
          forall row, In row tau_amy -> ta_rid (fst row) <> k)
    /\ (forall k, (forall g, In g apoe_raw -> ap_rid g = k ->
                     map_mapping (ap_genotype g) = None) ->
          forall row, In row tau_amy -> ta_rid (fst row) <> k).
Proof.
  intros dl dr tadni apoe_raw amerged out H.
  assert (Hrows : forall row, In row out ->
       exists g l1 l2 s v d,
         apoe_raw = l1 ++ g :: l2 /\ ap_rid g = ta_rid (fst row)
         /\ (forall y, In y l2 -> ap_rid y <> ap_rid g)
         /\ ap_genotype g = Some s /\ dict_get mapping s = Some v
         /\ ta_apoe4 (fst row) = Some v /\ ta_dx (fst row) = Some d).
  { unfold cross_modality_alignment, bind in H.
    destruct (tau_amy dl dr _ _) as [joined|] eqn:Hj; [|discriminate].
    injection H as <-.
    intros row Hrow. apply filter_In in Hrow as [Hrow _].
    apply merge_asof_sorted_inv in Hj as [_ Hj]. apply merge_asof_length in Hj.
    apply (in_map fst) in Hrow. rewrite Hj in Hrow.
    apply sort_values_In in Hrow. now apply tau_adni_apoe_In in Hrow. }
  split; [exact Hrows|]. split.
  - intros k Hk row Hrow E.
    destruct (Hrows row Hrow) as (g & l1 & l2 & s & v & d & Eraw & Hg & _).
    apply (Hk g); [rewrite Eraw; apply in_elt | congruence].
  - intros k Hk row Hrow E.
    destruct (Hrows row Hrow) as (g & l1 & l2 & s & v & d & Eraw & Hg & _ & Hs & Hv & _).
    assert (Hnone : map_mapping (ap_genotype g) = None).
    { apply Hk; [rewrite Eraw; apply in_elt | congruence]. }
    rewrite Hs in Hnone. unfold map_mapping in Hnone. congruence.
Qed.

Lemma final_rows_have_apoe4_and_dx_witness :
  cross_modality_alignment Int64 Int64 (tau_adni_apoe sample_tau_adni sample_apoe_raw)
                           [amy_scan 1 1364; amy_scan 2 1400]
  = Ok [pair_364]
  /\ (forall row, In row [pair_364] ->
       exists g l1 l2 s v d,
         sample_apoe_raw = l1 ++ g :: l2 /\ ap_rid g = ta_rid (fst row)
         /\ (forall y, In y l2 -> ap_rid y <> ap_rid g)
         /\ ap_genotype g = Some s /\ dict_get mapping s = Some v
         /\ ta_apoe4 (fst row) = Some v /\ ta_dx (fst row) = Some d)
  /\ (forall row, In row [pair_364] -> ta_rid (fst row) <> Some 2).
Proof.
  assert (H : cross_modality_alignment Int64 Int64
                (tau_adni_apoe sample_tau_adni sample_apoe_raw)
                [amy_scan 1 1364; amy_scan 2 1400]
              = Ok [pair_364]) by (vm_compute; reflexivity).
  assert (Hk : forall g, In g sample_apoe_raw -> ap_rid g <> Some 2).
  { intros g [<-|[]]. simpl. discriminate. }
  split; [exact H|].
  pose proof (final_rows_have_apoe4_and_dx _ _ _ _ _ _ H) as [H1 [H2 _]].
  split; [exact H1 | exact (H2 (Some 2) Hk)].
Defined.

(** ** Region columns *)

Lemma in_columns_In (c : string) (cols : list string) :
  in_columns c cols = true <-> In c cols.
Proof.
  unfold in_columns. rewrite existsb_exists. split.
  - intros (x & Hx & E). apply String.eqb_eq in E. now subst.
  - intros H. exists c. split; [exact H | apply String.eqb_refl].
Qed.

Lemma select_columns_In (cols labels : list string) (c : string) :
  In c (select_columns cols labels) <-> In c labels /\ In c cols.
Proof.
  unfold select_columns. rewrite in_flat_map. split.
  - intros (x & Hx & Hc). apply filter_In in Hc as [Hc E].
    apply String.eqb_eq in E. subst. auto.
  - intros [Hl Hc]. exists c. split; [exact Hl|].
    apply filter_In. split; [exact Hc | apply String.eqb_refl].
Qed.

Lemma filter_eqb_NoDup (cols : list string) (c : string) :
  NoDup cols -> In c cols -> filter (String.eqb c) cols = [c].
Proof.
  induction cols as [|x cols IH]; simpl; [tauto|].
  intros Hnd Hin. inversion Hnd as [|? ? Hx Hnd']; subst.
  destruct (String.eqb c x) eqn:E.
  - apply String.eqb_eq in E. subst x. f_equal.
    apply filter_none. intros y Hy. apply String.eqb_neq. intros ->. contradiction.
  - apply String.eqb_neq in E. destruct Hin as [->|Hin]; [congruence|]. now apply IH.
Qed.

Lemma select_columns_NoDup (cols labels : list string) :
  NoDup cols -> (forall c, In c labels -> In c cols) ->
  select_columns cols labels = labels.
Proof.
  intros Hnd. induction labels as [|c labels IH]; simpl; intros Hin; [reflexivity|].
  rewrite (filter_eqb_NoDup cols c Hnd (Hin c (or_introl eq_refl))). simpl.
  f_equal. apply IH. auto.
Qed.

Lemma requested_columns_exist (ordered cols : list string) (c : string) :
  In c (non_suvr_cols cols ++ suvr_cols_ordered ordered cols) -> In c cols.
Proof.
  intros H. apply in_app_or in H as [H|H]; apply filter_In in H as [H1 H2].
  - exact H1.
  - now apply in_columns_In.
Qed.




Lemma endswith_app (s suffix : string) : endswith (s ++ suffix) suffix = true.
Proof.
  induction s as [|c s IH].
  - simpl append. destruct suffix; cbn [endswith]; now rewrite String.eqb_refl.
  - simpl append. cbn [endswith]. now destruct (String.eqb _ _).
Qed.

Lemma FS_LABEL_endswith (str_upper : string -> string) (raw : string) :
  endswith (FS_LABEL str_upper raw) "_SUVR" = true.
Proof. apply endswith_app. Qed.

Lemma subcortical_idx_bound (i : nat) : In i subcortical_idx -> (i <= 83)%nat.
Proof.
  unfold subcortical_idx. intros H.
  repeat (destruct H as [<-|H]; [lia|]). destruct H.
Qed.



(** C10. Whatever [str.upper] makes of the catalog labels: a column of the
    matched table whose name ends in _SUVR and which is not among the
    catalog labels left after the subcortical positions are removed does
    not appear in the final table; a column whose name
    does not end in _SUVR always does.  A column is in the final table
    exactly when it is of one of these two kinds. *)
Theorem unlisted_measurement_columns_dropped :
  forall (str_upper : string -> string) (fs_region cols ordered out : list string),
    np_delete (map (FS_LABEL str_upper) fs_region) subcortical_idx = Ok ordered ->
    tau_amy_cortical str_upper fs_region cols = Ok out ->
    forall c, In c cols ->
      (endswith c "_SUVR" = true -> ~ In c ordered -> ~ In c out)
      /\ (endswith c "_SUVR" = false -> In c out)
      /\ (In c out <-> endswith c "_SUVR" = false \/ In c ordered).
Proof.
  intros str_upper fs_region cols ordered out Hdel H c Hc.
  unfold tau_amy_cortical in H. rewrite Hdel in H. simpl in H. injection H as <-.
  assert (Hiff : In c (select_columns cols
                         (non_suvr_cols cols ++ suvr_cols_ordered ordered cols))
                 <-> endswith c "_SUVR" = false \/ In c ordered).
  { rewrite select_columns_In, in_app_iff. unfold non_suvr_cols, suvr_cols_ordered.
    rewrite !filter_In, negb_true_iff, in_columns_In. tauto. }
  split; [|split; [|exact Hiff]].
  - intros He Hno Hin. apply Hiff in Hin as [Hin|Hin]; congruence.
  - intros He. apply Hiff. now left.
Qed.

Lemma filter_pet_qc_idempotent_witness :
  filter_pet_qc pet_cell
    (filter_pet_qc pet_cell pet_frame_sample "QC_FLAG" (CNum 2) "TRACER"
                   (Some [CStr "MK6240"]))
    "QC_FLAG" (CNum 2) "TRACER" (Some [CStr "MK6240"])
  = filter_pet_qc pet_cell pet_frame_sample "QC_FLAG" (CNum 2) "TRACER"
                  (Some [CStr "MK6240"]).
Proof.
  exact (proj1 (filter_pet_qc_idempotent PetRow pet_cell pet_frame_sample
                  "QC_FLAG" (CNum 2) "TRACER" (Some [CStr "MK6240"]))).
Defined.



Lemma unlisted_measurement_columns_dropped_witness :
  np_delete (map (FS_LABEL ascii_upper) sample_catalog) subcortical_idx = Ok sample_ordered
  /\ tau_amy_cortical ascii_upper sample_catalog sample_columns
     = Ok ["RID"; "DX"; "APOE4"; "REGION_2_SUVR"; "REGION_5_SUVR"]%string
  /\ In "REGION_40_SUVR"%string sample_columns
  /\ (endswith "REGION_40_SUVR" "_SUVR" = true ->
      ~ In "REGION_40_SUVR"%string sample_ordered ->
      ~ In "REGION_40_SUVR"%string
           ["RID"; "DX"; "APOE4"; "REGION_2_SUVR"; "REGION_5_SUVR"]%string).
Proof.
  assert (H1 : np_delete (map (FS_LABEL ascii_upper) sample_catalog) subcortical_idx
               = Ok sample_ordered) by (vm_compute; reflexivity).
  assert (H2 : tau_amy_cortical ascii_upper sample_catalog sample_columns
               = Ok ["RID"; "DX"; "APOE4"; "REGION_2_SUVR"; "REGION_5_SUVR"]%string)
    by (vm_compute; reflexivity).
  assert (H3 : In "REGION_40_SUVR"%string sample_columns) by (simpl; tauto).
  repeat (split; [assumption|]).
  exact (proj1 (unlisted_measurement_columns_dropped _ _ _ _ _ H1 H2 _ H3)).
Defined.

(** ** When the nearest-match stages return a frame *)

Section StagesReturn.
Variables L R : Type.
Variables (lby lon : L -> option Z) (rby ron : R -> option Z).

(** Whenever [attach_nearest_visit] returns, its rows are the left rows
    that have a subject key and a timestamp, each once. *)
Lemma attach_nearest_visit_rows (ldt rdt : Dtype) (pet : list L) (reg : list R)
      (col : string) (keep : list string) out :
  attach_nearest_visit lby lon rby ron ldt rdt pet reg col keep = Ok out ->
  map fst out = sort_values lby lon (dropna2 lby lon pet)
  /\ Permutation (map fst out) (dropna2 lby lon pet)
  /\ List.length out = List.length (dropna2 lby lon pet)
  /\ forall l m, In (l, m) out -> (forall c, In c reg -> rby c <> lby l) -> m = None.
Proof.
  intros H. apply attach_nearest_visit_inv in H as (_ & _ & H).
  pose proof (merge_asof_length _ _ _ _ _ _ _ _ _ H) as Hfst.
  split; [exact Hfst|].
  split; [rewrite Hfst; apply sort_values_perm|]. split.
  - rewrite <- (length_map fst), Hfst. apply sort_values_length.
  - intros l m Hin Hno. eapply merge_asof_unmatched; eauto.
    intros c Hc. apply sort_values_In, dropna2_In in Hc. now apply Hno.
Qed.

Lemma merge_asof_sorted_rows (ldt rdt : Dtype) (left : list L) (right : list R) out :
  merge_asof_sorted lby lon rby ron ldt rdt left right = Ok out ->
  Permutation (map fst out) left
  /\ List.length out = List.length left
  /\ forall l m, In (l, m) out -> (forall c, In c right -> rby c <> lby l) -> m = None.
Proof.
  intros H. apply merge_asof_sorted_inv in H as [_ H].
  pose proof (merge_asof_length _ _ _ _ _ _ _ _ _ H) as Hfst.
  split; [rewrite Hfst; apply sort_values_perm|]. split.
  - rewrite <- (length_map fst), Hfst. apply sort_values_length.
  - intros l m Hin Hno. eapply merge_asof_unmatched; eauto.
    intros c Hc. apply sort_values_In in Hc. now apply Hno.
Qed.
End StagesReturn.

(** ** The label selection of [attach_nearest_visit] *)

Lemma count_occ_gt_1 (x y : string) (l : list string) :
  (1 <? count_occ string_dec (x :: l) y)%nat = true <->
  (x = y /\ In y l) \/ (1 < count_occ string_dec l y)%nat.
Proof.
  rewrite Nat.ltb_lt. simpl. rewrite (count_occ_In string_dec l y).
  destruct (string_dec x y) as [E|E]; split; intros H.
  - left. split; [exact E | lia].
  - destruct H as [[_ H]|H]; lia.
  - now right.
  - destruct H as [[H _]|H]; [contradiction | exact H].
Qed.

Lemma duplicated_key_label_none (col : string) (keep : list string) :
  duplicated_key_label col keep = None <->
  col <> "RID"%string /\ ~ In "RID"%string keep /\ ~ In col keep.
Proof.
  unfold duplicated_key_label, selected_labels. cbn [find].
  destruct (1 <? count_occ string_dec ("RID"%string :: col :: keep) "RID"%string)%nat
    eqn:Erid.
  - split; [discriminate|]. intros (H1 & H2 & _). exfalso.
    apply count_occ_gt_1 in Erid as [[_ Hin]|Hgt].
    + destruct Hin as [E|Hin]; [now destruct H1 | contradiction].
    + apply Nat.ltb_lt, count_occ_gt_1 in Hgt as [[E _]|Hgt]; [now destruct H1|].
      apply H2, (count_occ_In string_dec). lia.
  - destruct (1 <? count_occ string_dec ("RID"%string :: col :: keep) col)%nat eqn:Ecol.
    + split; [discriminate|]. intros (H1 & _ & H3). exfalso.
      apply count_occ_gt_1 in Ecol as [[E _]|Hgt]; [now destruct H1|].
      apply Nat.ltb_lt, count_occ_gt_1 in Hgt as [[_ Hin]|Hgt]; [contradiction|].
      apply H3, (count_occ_In string_dec). lia.
    + split; [|reflexivity]. intros _.
      assert (Hrid : ~ ((1 < count_occ string_dec (col :: keep) "RID"%string)%nat)).
      { intros Hgt.
        assert (Ht : (1 <? count_occ string_dec ("RID"%string :: col :: keep)
                                    "RID"%string)%nat = true)
          by (apply count_occ_gt_1; now right).
        congruence. }
      assert (Hrid' : ~ In "RID"%string (col :: keep)).
      { intros Hin.
        assert (Ht : (1 <? count_occ string_dec ("RID"%string :: col :: keep)
                                    "RID"%string)%nat = true)
          by (apply count_occ_gt_1; left; auto).
        congruence. }
      assert (Hcol : ~ In col keep).
      { intros Hin.
        assert (Ht : (1 <? count_occ string_dec ("RID"%string :: col :: keep)
                                    col)%nat = true).
        { apply count_occ_gt_1. right. apply Nat.ltb_lt, count_occ_gt_1. left. auto. }
        congruence. }
      simpl in Hrid'. intuition congruence.
Qed.

Lemma duplicated_key_label_date (col : string) (keep : list string) :
  In col keep -> col <> "RID"%string -> ~ In "RID"%string keep ->
  duplicated_key_label col keep = Some col.
Proof.
  intros Hin Hne Hrid. unfold duplicated_key_label, selected_labels. cbn [find].
  destruct (1 <? count_occ string_dec ("RID"%string :: col :: keep) "RID"%string)%nat
    eqn:Erid.
  - exfalso. apply count_occ_gt_1 in Erid as [[_ [E|H]]|Hgt]; auto.
    apply Nat.ltb_lt, count_occ_gt_1 in Hgt as [[E _]|Hgt]; auto.
    apply Hrid, (count_occ_In string_dec). lia.
  - assert (Ecol : (1 <? count_occ string_dec ("RID"%string :: col :: keep) col)%nat
                   = true).
    { apply count_occ_gt_1. right. apply Nat.ltb_lt, count_occ_gt_1. left. auto. }
    now rewrite Ecol.
Qed.

Lemma attach_nearest_visit_defaults {L R} (lby lon : L -> option Z)
      (rby ron : R -> option Z) (ldt rdt : Dtype) (pet : list L) (reg : list R) :
  attach_nearest_visit lby lon rby ron ldt rdt pet reg
                       default_reg_date_col default_keep_reg_cols
  = Raise (LabelNotUnique "EXAMDATE").
Proof. reflexivity. Qed.

(** C3. No nearest-match stage of the script has the left-outer behaviour.
    The inline join of section 5 does not drop a left row whose timestamp
    is null: on a frame holding such a row it raises.  The registry joins
    of sections 3 and 7 call [attach_nearest_visit] with its defaults,
    which select the EXAMDATE column of the registry twice: the join key is
    then ambiguous and the call raises on every pair of frames, so no left
    row is ever joined. *)
Theorem inline_nearest_join_keeps_null_timestamps :
  tau_adni Int64 Int64 [scan_without_date; scan_1_day100] adni_two_subjects
  = Raise (MergeKeysNull LeftSide)
  /\ forall (tau_rid_dtype registry_rid_dtype : Dtype) (tau : list ScanRow)
            (registry : list RegRow),
       tau_with_visit tau_rid_dtype registry_rid_dtype tau registry
       = Raise (LabelNotUnique "EXAMDATE").
Proof.
  split; [vm_compute; reflexivity|].
  intros dl dr tau registry. apply attach_nearest_visit_defaults.
Qed.

(** ** The metadata merges of sections 2 and 7 *)

Lemma tau_exact_keys (taumeta : list MetaRow) (tau_qc : list QcRow) m q :
  In (m, Some q) (tau taumeta tau_qc) ->
  In m taumeta /\ In q tau_qc /\ m_rid m = q_rid q /\ m_viscode m = q_viscode q.
Proof.
  unfold tau. rewrite merge_left_some. unfold key2_eqb. simpl.
  rewrite andb_true_iff, rid_eqb_eq, ostr_eqb_eq. tauto.
Qed.

(** C5. The amyloid metadata merge of section 7 joins on the subject key
    alone: it pairs a metadata row of visit bl with a QC row of visit m12
    of the same subject, which the tau merge of section 2, keyed on subject
    and visit code, leaves unpaired. *)
Theorem amy_merge_pairs_differing_visit_codes :
  amy [meta_row 1 "bl" 100] [qc_row 1 "m12" 100]
  = [(meta_row 1 "bl" 100, Some (qc_row 1 "m12" 100))]
  /\ m_viscode (meta_row 1 "bl" 100) <> q_viscode (qc_row 1 "m12" 100)
  /\ tau [meta_row 1 "bl" 100] [qc_row 1 "m12" 100]
     = [(meta_row 1 "bl" 100, None)].
Proof.
  split; [vm_compute; reflexivity|]. split; [discriminate|].
  vm_compute; reflexivity.
Qed.

(** ** The scenarios of the specification, evaluated *)

Example nearest_of_three_candidates :
  tau_adni Int64 Int64 [scan_1_day100]
           [adni_row 1 97 "CN"; adni_row 1 101 "MCI"; adni_row 1 110 "AD"]
  = Ok [(scan_1_day100, Some (adni_row 1 101 "MCI"))].
Proof. vm_compute; reflexivity. Qed.

Example scan_matched_to_visit_three_days_before :
  attach_nearest_visit scan_rid scan_date g_rid g_examdate Int64 Int64
                       [(meta_row 1 "bl" 14730, None)]
                       [reg_row 1 "bl" 14727; reg_row 1 "m03" 14761]
                       "EXAMDATE" ["VISCODE"; "VISCODE2"]%string
  = Ok [((meta_row 1 "bl" 14730, None), Some (reg_row 1 "bl" 14727))].
Proof. vm_compute; reflexivity. Qed.

Example subject_without_assessment_kept_unmatched :
  tau_adni Int64 Int64 [scan_1_day100] [adni_row 2 100 "MCI"]
  = Ok [(scan_1_day100, None)].
Proof. vm_compute; reflexivity. Qed.

Example subject_keys_of_different_dtype :
  tau_adni Float64 Int64 [scan_1_day100] adni_two_subjects
  = Raise IncompatibleMergeKeys.
Proof. vm_compute; reflexivity. Qed.

Example subjects_with_interleaved_dates :
  tau_adni Int64 Int64 scans_interleaved adni_two_subjects
  = Raise (KeysNotSorted LeftSide).
Proof. vm_compute; reflexivity. Qed.

Example gap_of_365_days_dropped :
  tolerance_gate [pair_364; pair_365] = [pair_364].
Proof. vm_compute; reflexivity. Qed.

(** * Further properties of the script *)

(** ** The order [sort_values] produces *)

Section SortOrder.
Variable A : Type.
Variables k1 k2 : A -> option Z.

Local Abbreviation leb := (row_leb A k1 k2).

Ltac order_cases :=
  unfold row_leb, na_last_leb, na_last_ltb;
  repeat match goal with
         | |- context [match ?c with Some _ => _ | None => _ end] =>
             destruct c; simpl
         | H : context [match ?c with Some _ => _ | None => _ end] |- _ =>
             destruct c; simpl in H
         end;
  repeat match goal with
         | H : context [?a <? ?b] |- _ => destruct (Z.ltb_spec a b); simpl in H
         | |- context [?a <? ?b] => destruct (Z.ltb_spec a b); simpl
         end;
  try congruence; try lia.

Lemma row_leb_total (x y : A) : leb x y = false -> leb y x = true.
Proof. destruct (k1 x), (k1 y), (k2 x), (k2 y); order_cases. Qed.

Lemma row_leb_trans (x y z : A) : leb x y = true -> leb y z = true -> leb x z = true.
Proof.
  destruct (k1 x), (k1 y), (k1 z), (k2 x), (k2 y), (k2 z); order_cases.
Qed.

Lemma insert_row_sorted (x : A) (l : list A) :
  StronglySorted (fun a b => leb a b = true) l ->
  StronglySorted (fun a b => leb a b = true) (insert_row A k1 k2 x l).
Proof.
  induction l as [|y l IH]; simpl; intros Hs; [repeat constructor|].
  inversion Hs as [|? ? Hs' Hy]; subst.
  destruct (leb x y) eqn:E.
  - constructor; [exact Hs|]. constructor; [exact E|].
    eapply Forall_impl; [|exact Hy]. simpl. intros a Ha.
    eapply row_leb_trans; eauto.
  - constructor; [now apply IH|].
    apply Forall_forall. intros a Ha.
    apply (Permutation_in _ (insert_row_perm A k1 k2 x l)) in Ha.
    destruct Ha as [<-|Ha]; [now apply row_leb_total|].
    rewrite Forall_forall in Hy. now apply Hy.
Qed.

Lemma sort_values_sorted (l : list A) :
  StronglySorted (fun a b => leb a b = true) (sort_values k1 k2 l).
Proof.
  induction l as [|x l IH]; simpl; [constructor|]. now apply insert_row_sorted.
Qed.

Lemma sorted_pair {B} (R : B -> B -> Prop) (l : list B) (x y : B) :
  StronglySorted R l -> In x l -> In y l -> x = y \/ R x y \/ R y x.
Proof.
  induction 1 as [|a l Hs IH Ha]; simpl; [tauto|].
  rewrite Forall_forall in Ha.
  intros [<-|Hx] [<-|Hy]; auto.
Qed.

Lemma sorted_both (f : A -> Z) (R : A -> A -> Prop) (l : list A) :
  StronglySorted R l -> StronglySorted Z.le (map f l) ->
  StronglySorted (fun a b => R a b /\ f a <= f b) l.
Proof.
  induction 1 as [|a l Hs IH Ha]; simpl; intros Hm; constructor;
    inversion Hm as [|? ? Hm' Hfa]; subst; auto.
  rewrite Forall_forall in *. intros b Hb. split; [now apply Ha|].
  apply Hfa, in_map, Hb.
Qed.

Lemma sorted_weaken {B} (R R' : B -> B -> Prop) (l : list B) :
  StronglySorted R l ->
  (forall x y, In x l -> In y l -> R x y -> R' x y) ->
  StronglySorted R' l.
Proof.
  induction 1 as [|a l Hs IH Ha]; intros Himp; constructor.
  - apply IH. intros x y Hx Hy. apply Himp; now right.
  - rewrite Forall_forall in *. intros b Hb.
    apply Himp; [now left | now right | now apply Ha].
Qed.

(** After [dropna] and [sort_values], the dates ascend over the whole
    frame exactly when subject order agrees with date order. *)
Lemma sorted_frame_accepted (l : list A) :
  keys_accepted k2 (sort_values k1 k2 (dropna2 k1 k2 l))
  <-> subject_order_is_date_order k1 k2 l.
Proof.
  set (S := sort_values k1 k2 (dropna2 k1 k2 l)).
  assert (HS : forall x, In x S <-> In x l /\ k1 x <> None /\ k2 x <> None).
  { intros x. unfold S. rewrite sort_values_In. apply dropna2_In. }
  pose proof (sort_values_sorted (dropna2 k1 k2 l)) as Hsorted. fold S in Hsorted.
  split.
  - intros [_ Hdates] x y Hx Hy rx ry tx ty Ex Ey Etx Ety Hlt.
    assert (Hxs : In x S) by (apply HS; repeat split; congruence).
    assert (Hys : In y S) by (apply HS; repeat split; congruence).
    pose proof (sorted_both (fun r => on_value (k2 r)) _ _ Hsorted Hdates) as Hb.
    destruct (sorted_pair _ _ x y Hb Hxs Hys) as [->|[[_ H]|[H _]]].
    + rewrite Ex in Ey. injection Ey as <-. lia.
    + rewrite Etx, Ety in H. exact H.
    + exfalso. revert H. unfold row_leb, na_last_leb, na_last_ltb.
      rewrite Ex, Ey, Etx, Ety.
      destruct (Z.ltb_spec ry rx), (Z.ltb_spec rx ry); simpl; try lia; discriminate.
  - intros Hcond. split; [intros x Hx; apply HS in Hx; tauto|].
    assert (Hd : StronglySorted (fun a b => on_value (k2 a) <= on_value (k2 b)) S).
    { apply (sorted_weaken _ _ _ Hsorted). intros x y Hx Hy Hle.
      apply HS in Hx as (Hx & Hx1 & Hx2). apply HS in Hy as (Hy & Hy1 & Hy2).
      destruct (k1 x) as [rx|] eqn:Ex; [|congruence].
      destruct (k1 y) as [ry|] eqn:Ey; [|congruence].
      destruct (k2 x) as [tx|] eqn:Etx; [|congruence].
      destruct (k2 y) as [ty|] eqn:Ety; [|congruence].
      simpl. specialize (Hcond x y Hx Hy rx ry tx ty Ex Ey Etx Ety).
      revert Hle. unfold row_leb, na_last_leb, na_last_ltb.
      rewrite Ex, Ey, Etx, Ety.
      destruct (Z.ltb_spec rx ry), (Z.ltb_spec ry rx), (Z.ltb_spec ty tx);
        simpl; try lia; discriminate. }
    clear -Hd. induction Hd as [|a S' Hs IH Ha]; simpl; constructor; auto.
    rewrite Forall_forall in *. intros t Ht.
    apply in_map_iff in Ht as (b & <- & Hb). now apply Ha.
Qed.
End SortOrder.

(** ** [attach_nearest_visit]: rows, order and errors *)

Lemma all_values_none (cs : list (option Z)) :
  all_values cs = None <-> In None cs.
Proof.
  induction cs as [|[t|] cs IH]; simpl.
  - split; [discriminate | tauto].
  - destruct (all_values cs); split; try discriminate.
    + intros [H|H]; [discriminate|]. apply IH in H. discriminate.
    + intros _. right. now apply IH.
    + auto.
  - split; auto.
Qed.

Lemma check_on_keys_null (s s' : Side) (cs : list (option Z)) :
  check_on_keys s cs = Raise (MergeKeysNull s') <-> s = s' /\ In None cs.
Proof.
  unfold check_on_keys. rewrite <- all_values_none.
  destruct (all_values cs) as [ts|].
  - destruct (is_monotonic_increasing ts); split; try discriminate;
      intros [_ H]; discriminate.
  - split; [intros H; injection H as ->; auto | intros [-> _]; reflexivity].
Qed.

Lemma merge_asof_null_error {L R} (lby lon : L -> option Z) (rby ron : R -> option Z)
      (left : list L) (right : list R) (s : Side) :
  asof_join lby lon rby ron left right = Raise (MergeKeysNull s) <->
  (s = LeftSide /\ exists l, In l left /\ lon l = None)
  \/ (s = RightSide /\ keys_accepted lon left /\ exists r, In r right /\ ron r = None).
Proof.
  unfold asof_join, bind.
  destruct (check_on_keys LeftSide (map lon left)) as [[]|e] eqn:El.
  - apply keys_accepted_iff in El.
    destruct (check_on_keys RightSide (map ron right)) as [[]|e] eqn:Er.
    + split; [discriminate|]. intros [[_ (l & Hl & E)]|[_ (_ & r & Hr & E)]].
      * destruct El as [El _]. now destruct (El l Hl).
      * apply keys_accepted_iff in Er. destruct Er as [Er _]. now destruct (Er r Hr).
    + split.
      * intros H. injection H as ->. apply check_on_keys_null in Er as [<- Hn].
        right. split; [reflexivity|]. split; [exact El|].
        apply in_map_iff in Hn as (r & E & Hr). eauto.
      * intros [[-> (l & Hl & E)]|[-> (_ & r & Hr & E)]].
        -- destruct El as [El _]. now destruct (El l Hl).
        -- f_equal. assert (Hn : check_on_keys RightSide (map ron right)
                                  = Raise (MergeKeysNull RightSide)).
           { apply check_on_keys_null. split; [reflexivity|].
             rewrite <- E. now apply in_map. }
           congruence.
  - split.
    + intros H. injection H as ->. apply check_on_keys_null in El as [<- Hn].
      left. split; [reflexivity|]. apply in_map_iff in Hn as (l & E & Hl). eauto.
    + intros [[-> (l & Hl & E)]|[-> (Hacc & _)]].
      * f_equal. assert (Hn : check_on_keys LeftSide (map lon left)
                               = Raise (MergeKeysNull LeftSide)).
        { apply check_on_keys_null. split; [reflexivity|].
          rewrite <- E. now apply in_map. }
        congruence.
      * apply (keys_accepted_iff LeftSide) in Hacc. congruence.
Qed.

(** X1. Whenever [attach_nearest_visit] returns, its left rows are the
    input rows that have a subject key and a date, each once, ordered by
    subject key and then date.  No output row has a null key or date, a
    matched registry row has neither, and a row whose subject has no
    registry row is kept with a null right side. *)
Theorem attach_nearest_visit_left_outer :
  forall (L R : Type) (lby lon : L -> option Z) (rby ron : R -> option Z)
         (pet_rid_dtype reg_rid_dtype : Dtype) (pet : list L) (reg : list R)
         (reg_date_col : string) (keep_reg_cols : list string) out,
    attach_nearest_visit lby lon rby ron pet_rid_dtype reg_rid_dtype pet reg
                         reg_date_col keep_reg_cols = Ok out ->
    Permutation (map fst out) (dropna2 lby lon pet)
    /\ StronglySorted (fun a b => row_leb L lby lon a b = true) (map fst out)
    /\ (forall l m, In (l, m) out -> lby l <> None /\ lon l <> None)
    /\ (forall l r, In (l, Some r) out -> rby r <> None /\ ron r <> None)
    /\ (forall l m, In (l, m) out ->
          (forall c, In c reg -> rby c <> lby l) -> m = None).
Proof.
  intros L R lby lon rby ron ldt rdt pet reg col keep out H.
  destruct (attach_nearest_visit_rows _ _ _ _ _ _ _ _ _ _ _ _ _ H)
    as (Hfst & Hp & _ & Hnone).
  split; [exact Hp|]. split; [rewrite Hfst; apply sort_values_sorted|].
  split; [|split; [|exact Hnone]].
  - intros l m Hin. apply (in_map fst) in Hin. simpl in Hin.
    apply (Permutation_in _ Hp), dropna2_In in Hin. tauto.
  - intros l r Hin. apply attach_nearest_visit_inv in H as (_ & _ & H).
    destruct (merge_asof_scoped _ _ _ _ _ _ _ _ _ _ _ H Hin) as (_ & Hr & _).
    apply sort_values_In, dropna2_In in Hr. tauto.
Qed.

Lemma attach_nearest_visit_left_outer_witness :
  attach_nearest_visit scan_rid scan_date g_rid g_examdate Int64 Int64
                       scans_for_registry registry_subject_1
                       "EXAMDATE" ["VISCODE"; "VISCODE2"]%string
  = Ok [((meta_row 1 "bl" 200, None), Some (reg_row 1 "bl" 198));
        ((meta_row 1 "m06" 380, None), Some (reg_row 1 "m06" 385))]
  /\ Permutation
       (map fst [((meta_row 1 "bl" 200, None), Some (reg_row 1 "bl" 198));
                 ((meta_row 1 "m06" 380, None), Some (reg_row 1 "m06" 385))])
       (dropna2 scan_rid scan_date scans_for_registry).
Proof.
  assert (H : attach_nearest_visit scan_rid scan_date g_rid g_examdate Int64 Int64
                scans_for_registry registry_subject_1
                "EXAMDATE" ["VISCODE"; "VISCODE2"]%string
              = Ok [((meta_row 1 "bl" 200, None), Some (reg_row 1 "bl" 198));
                    ((meta_row 1 "m06" 380, None), Some (reg_row 1 "m06" 385))])
    by (vm_compute; reflexivity).
  split; [exact H|].
  exact (proj1 (attach_nearest_visit_left_outer _ _ _ _ _ _ _ _ _ _ _ _ _ H)).
Defined.

(** X2. [attach_nearest_visit] hands [merge_asof] the registry columns RID,
    the date column and the columns to keep.  When the date column is also
    among the columns to keep, it is selected twice and the call raises on
    the ambiguous label, whatever the frames hold; the defaults are such a
    choice, so the registry join of the amyloid scans raises on every
    input.  Whenever the call returns, RID and the date column were each
    selected once. *)
Theorem attach_nearest_visit_duplicate_label :
  (forall (L R : Type) (lby lon : L -> option Z) (rby ron : R -> option Z)
          (pet_rid_dtype reg_rid_dtype : Dtype) (pet : list L) (reg : list R)
          (reg_date_col : string) (keep_reg_cols : list string),
     In reg_date_col keep_reg_cols ->
     reg_date_col <> "RID"%string -> ~ In "RID"%string keep_reg_cols ->
     attach_nearest_visit lby lon rby ron pet_rid_dtype reg_rid_dtype pet reg
                          reg_date_col keep_reg_cols
     = Raise (LabelNotUnique reg_date_col))
  /\ (forall (L R : Type) (lby lon : L -> option Z) (rby ron : R -> option Z)
             (pet_rid_dtype reg_rid_dtype : Dtype) (pet : list L) (reg : list R)
             (reg_date_col : string) (keep_reg_cols : list string) out,
        attach_nearest_visit lby lon rby ron pet_rid_dtype reg_rid_dtype pet reg
                             reg_date_col keep_reg_cols = Ok out ->
        ~ In reg_date_col keep_reg_cols
        /\ ~ In "RID"%string keep_reg_cols /\ reg_date_col <> "RID"%string)
  /\ In default_reg_date_col default_keep_reg_cols
  /\ forall (amy_rid_dtype registry_rid_dtype : Dtype) (amy : list ScanRow)
            (registry : list RegRow),
       amy_with_visit amy_rid_dtype registry_rid_dtype amy registry
       = Raise (LabelNotUnique "EXAMDATE").
Proof.
  split; [|split; [|split]].
  - intros L R lby lon rby ron ldt rdt pet reg col keep Hin Hne Hrid.
    unfold attach_nearest_visit.
    now rewrite (duplicated_key_label_date col keep Hin Hne Hrid).
  - intros L R lby lon rby ron ldt rdt pet reg col keep out H.
    apply attach_nearest_visit_inv in H as (H & _).
    apply duplicated_key_label_none in H. tauto.
  - unfold default_reg_date_col, default_keep_reg_cols. simpl. tauto.
  - intros dl dr amy registry. apply attach_nearest_visit_defaults.
Qed.

(** X3. [attach_nearest_visit] never fails on a null key: whatever the two
    frames hold, it does not raise the null-merge-key error on either
    side.  Whenever it returns, the two subject key columns have the same
    dtype and, on each side, among the rows that have a subject key and a
    date, a smaller subject key never comes with a later date than a larger
    one. *)
Theorem attach_nearest_visit_no_null_error :
  forall (L R : Type) (lby lon : L -> option Z) (rby ron : R -> option Z)
         (pet_rid_dtype reg_rid_dtype : Dtype) (pet : list L) (reg : list R)
         (reg_date_col : string) (keep_reg_cols : list string),
    (forall s : Side,
       attach_nearest_visit lby lon rby ron pet_rid_dtype reg_rid_dtype pet reg
                            reg_date_col keep_reg_cols
       <> Raise (MergeKeysNull s))
    /\ (forall out,
          attach_nearest_visit lby lon rby ron pet_rid_dtype reg_rid_dtype pet reg
                               reg_date_col keep_reg_cols = Ok out ->
          pet_rid_dtype = reg_rid_dtype
          /\ subject_order_is_date_order lby lon pet
          /\ subject_order_is_date_order rby ron reg).
Proof.
  intros L R lby lon rby ron ldt rdt pet reg col keep. split.
  - intros s H. unfold attach_nearest_visit, merge_asof in H.
    destruct (duplicated_key_label col keep); [discriminate|].
    destruct (dtype_eqb ldt rdt); [|discriminate].
    apply merge_asof_null_error in H as [[_ (l & Hl & E)]|[_ (_ & r & Hr & E)]].
    + apply sort_values_In, dropna2_In in Hl. tauto.
    + apply sort_values_In, dropna2_In in Hr. tauto.
  - intros out H. apply attach_nearest_visit_inv in H as (_ & Hdt & H).
    split; [exact Hdt|]. rewrite <- !sorted_frame_accepted.
    apply merge_asof_ok in H. tauto.
Qed.

(** ** The inline joins of sections 5 and 9 *)

Section InlineOrder.
Variable A : Type.
Variables k1 k2 : A -> option Z.

Lemma unsorted_frame_accepted (l : list A) :
  keys_accepted k2 (sort_values k1 k2 l)
  <-> (forall x, In x l -> k2 x <> None) /\ null_last_order_is_date_order k1 k2 l.
Proof.
  set (S := sort_values k1 k2 l).
  assert (HS : forall x, In x S <-> In x l) by (intros x; apply sort_values_In).
  pose proof (sort_values_sorted A k1 k2 l) as Hsorted. fold S in Hsorted.
  split.
  - intros [Hnn Hdates]. split; [intros x Hx; apply Hnn, HS, Hx|].
    intros x y Hx Hy Hlt. apply HS in Hx, Hy.
    pose proof (sorted_both A (fun r => on_value (k2 r)) _ _ Hsorted Hdates) as Hb.
    destruct (sorted_pair _ _ x y Hb Hx Hy) as [->|[[_ H]|[H _]]].
    + lia.
    + exact H.
    + exfalso. revert H Hlt. unfold row_leb, na_last_leb, na_last_ltb.
      destruct (k1 x) as [rx|], (k1 y) as [ry|]; simpl; try discriminate.
      * destruct (Z.ltb_spec ry rx), (Z.ltb_spec rx ry); simpl; try lia; discriminate.
  - intros [Hnn Hcond]. split; [intros x Hx; apply Hnn, HS, Hx|].
    assert (Hd : StronglySorted (fun a b => on_value (k2 a) <= on_value (k2 b)) S).
    { apply (sorted_weaken _ _ _ Hsorted). intros x y Hx Hy Hle.
      apply HS in Hx, Hy. specialize (Hcond x y Hx Hy).
      pose proof (Hnn x Hx) as Hx2. pose proof (Hnn y Hy) as Hy2.
      destruct (k2 x) as [tx|] eqn:Etx; [|congruence].
      destruct (k2 y) as [ty|] eqn:Ety; [|congruence].
      simpl in *. revert Hle Hcond. unfold row_leb, na_last_leb.
      rewrite Etx, Ety. simpl.
      destruct (na_last_ltb (k1 x) (k1 y)); simpl; [auto|].
      intros H _. apply andb_true_iff in H as [_ H].
      destruct (Z.ltb_spec ty tx); simpl in H; [discriminate | lia]. }
    clear -Hd. induction Hd as [|a S' Hs IH Ha]; simpl; constructor; auto.
    rewrite Forall_forall in *. intros t Ht.
    apply in_map_iff in Ht as (b & <- & Hb). now apply Ha.
Qed.
End InlineOrder.

Lemma merge_asof_sorted_returns_iff {L R} (lby lon : L -> option Z)
      (rby ron : R -> option Z) (ldt rdt : Dtype) (left : list L) (right : list R) :
  (exists out, merge_asof_sorted lby lon rby ron ldt rdt left right = Ok out)
  <-> ldt = rdt
      /\ ((forall x, In x left -> lon x <> None)
          /\ null_last_order_is_date_order lby lon left)
      /\ ((forall x, In x right -> ron x <> None)
          /\ null_last_order_is_date_order rby ron right).
Proof.
  rewrite <- !unsorted_frame_accepted. split.
  - intros (out & H). apply merge_asof_sorted_inv in H as [Hdt H].
    apply merge_asof_ok in H. tauto.
  - intros (Hdt & Hl & Hr). eexists. apply merge_asof_sorted_inv.
    split; [exact Hdt|]. apply merge_asof_ok. eauto.
Qed.

(** X4. Whenever the tau-to-assessment join or the tau-to-amyloid join
    returns a frame, the subject key columns of its two sides have the same
    dtype and, on each side, every row has a date and subject order (null
    subject keys last) agrees with date order.  When the subject key
    columns differ in dtype the join raises, whatever the rows are. *)
Theorem inline_joins_return_only_if :
  (forall (dl dr : Dtype) (tau_merged : list TauMergedRow) (adni2 : list AdniRow),
     ((exists out, tau_adni dl dr tau_merged adni2 = Ok out) ->
      dl = dr
      /\ ((forall x, In x tau_merged -> tm_scandate x <> None)
          /\ null_last_order_is_date_order tm_rid tm_scandate tau_merged)
      /\ ((forall x, In x adni2 -> a_examdate x <> None)
          /\ null_last_order_is_date_order a_rid a_examdate adni2))
     /\ (dl <> dr -> tau_adni dl dr tau_merged adni2 = Raise IncompatibleMergeKeys))
  /\ (forall (dl dr : Dtype) (tau_adni : list TauApoeRow)
             (amy_merged : list AmyMergedRow),
        ((exists out, tau_amy dl dr tau_adni amy_merged = Ok out) ->
         dl = dr
         /\ ((forall x, In x tau_adni -> ta_scandate_tau x <> None)
             /\ null_last_order_is_date_order ta_rid ta_scandate_tau tau_adni)
         /\ ((forall x, In x amy_merged -> am_scandate_amy x <> None)
             /\ null_last_order_is_date_order am_rid am_scandate_amy amy_merged))
        /\ (dl <> dr -> tau_amy dl dr tau_adni amy_merged = Raise IncompatibleMergeKeys)).
Proof.
  assert (Hne : forall dl dr, dl <> dr -> dtype_eqb dl dr = false).
  { intros dl dr H. destruct (dtype_eqb dl dr) eqn:E; [|reflexivity].
    apply dtype_eqb_eq in E. contradiction. }
  split; intros dl dr left right; split.
  - apply merge_asof_sorted_returns_iff.
  - intros H. unfold tau_adni, merge_asof_sorted, merge_asof. now rewrite (Hne _ _ H).
  - apply merge_asof_sorted_returns_iff.
  - intros H. unfold tau_amy, merge_asof_sorted, merge_asof. now rewrite (Hne _ _ H).
Qed.

(** X5. When an inline join returns, every left row is in the output
    exactly once, a row with a null subject key included, and a left row
    without right row of its subject key has a null right side. *)
Theorem inline_joins_keep_every_left_row :
  (forall (dl dr : Dtype) (tau_merged : list TauMergedRow) (adni2 : list AdniRow) out,
     tau_adni dl dr tau_merged adni2 = Ok out ->
     Permutation (map fst out) tau_merged
     /\ forall l m, In (l, m) out ->
          (forall c, In c adni2 -> a_rid c <> tm_rid l) -> m = None)
  /\ (forall (dl dr : Dtype) (tau_adni : list TauApoeRow)
             (amy_merged : list AmyMergedRow) out,
        tau_amy dl dr tau_adni amy_merged = Ok out ->
        Permutation (map fst out) tau_adni
        /\ forall l m, In (l, m) out ->
             (forall c, In c amy_merged -> am_rid c <> ta_rid l) -> m = None).
Proof.
  split; intros dl dr left right out H;
    destruct (merge_asof_sorted_rows _ _ _ _ _ _ _ _ _ _ _ H) as (Hp & _ & Hn); auto.
Qed.

Lemma inline_joins_keep_every_left_row_witness :
  tau_adni Int64 Int64 [scan_1_day100] [adni_row 2 100 "MCI"]
  = Ok [(scan_1_day100, None)]
  /\ Permutation (map fst [(scan_1_day100, @None AdniRow)]) [scan_1_day100].
Proof.
  assert (H : tau_adni Int64 Int64 [scan_1_day100] [adni_row 2 100 "MCI"]
              = Ok [(scan_1_day100, None)]) by (vm_compute; reflexivity).
  split; [exact H|].
  exact (proj1 (proj1 inline_joins_keep_every_left_row _ _ _ _ _ H)).
Defined.

(** ** The window of the tolerance gate *)

(** X6. Because the gap is rounded down to whole days before its absolute
    value is taken, the gate keeps a joined row exactly when both dates are
    present and the amyloid date lies from 364 days before (inclusive) to
    365 days after (exclusive) the tau date, in nanoseconds. *)
Theorem tolerance_window_in_nanoseconds :
  forall row : TauAmyRow,
    within_a_year row = true <->
    exists a t, SCANDATE_AMY row = Some a /\ SCANDATE_TAU row = Some t
                /\ - 364 * ns_per_day <= a - t < 365 * ns_per_day.
Proof.
  intros row. unfold within_a_year.
  destruct (AMY_TAU_SCANDIFF_DAYS row) as [g|] eqn:E.
  - pose proof (proj1 (scandiff_days_floor row g) E) as (a & t & Ha & Ht & Hlo & Hhi).
    rewrite Z.ltb_lt. split.
    + intros Hg. exists a, t. repeat split; auto; unfold ns_per_day in *; lia.
    + intros (a' & t' & Ha' & Ht' & H1 & H2).
      rewrite Ha in Ha'. rewrite Ht in Ht'. injection Ha' as <-. injection Ht' as <-.
      unfold ns_per_day in *. lia.
  - split; [discriminate|]. intros (a & t & Ha & Ht & _).
    unfold AMY_TAU_SCANDIFF_DAYS in E. rewrite Ha, Ht in E. discriminate.
Qed.

(** ** The rows of the cross-modality frame *)

(** X7. Every row the cross-modality alignment returns pairs a tau scan
    with an amyloid scan of the same subject key: the one nearest in time
    among the amyloid scans of that subject (the earlier on a tie), with a
    gap in whole days of absolute value below 365.  A tau scan whose
    subject has no amyloid scan is not in the result. *)
Theorem cross_modality_rows_pair_same_subject :
  forall (dl dr : Dtype) (tau_adni : list TauApoeRow)
         (amy_merged : list AmyMergedRow) (out : list TauAmyRow),
    cross_modality_alignment dl dr tau_adni amy_merged = Ok out ->
    forall row, In row out ->
      exists a tt ta g,
        snd row = Some a /\ In (fst row) tau_adni /\ In a amy_merged
        /\ am_rid a = ta_rid (fst row)
        /\ ta_scandate_tau (fst row) = Some tt /\ am_scandate_amy a = Some ta
        /\ AMY_TAU_SCANDIFF_DAYS row = Some g /\ Z.abs g < 365
        /\ forall c tc, In c amy_merged ->
             am_rid c = ta_rid (fst row) -> am_scandate_amy c = Some tc ->
             Z.abs (ta - tt) <= Z.abs (tc - tt)
             /\ (Z.abs (tc - tt) = Z.abs (ta - tt) -> ta <= tc).
Proof.
  intros dl dr tadni amerged out H row Hrow.
  unfold cross_modality_alignment, bind in H.
  destruct (tau_amy dl dr tadni amerged) as [joined|] eqn:Hj; [|discriminate].
  injection H as <-.
  apply filter_In in Hrow as [Hrow Hgate].
  destruct row as [l m]. unfold within_a_year in Hgate.
  destruct (AMY_TAU_SCANDIFF_DAYS (l, m)) as [g|] eqn:Eg; [|discriminate].
  apply Z.ltb_lt in Hgate.
  destruct m as [a|]; [|unfold AMY_TAU_SCANDIFF_DAYS in Eg; simpl in Eg; discriminate].
  unfold tau_amy in Hj.
  destruct (merge_asof_sorted_scoped _ _ _ _ _ _ _ _ _ _ _ _ _ Hj Hrow)
    as (Hl & Ha & Hrid).
  assert (Hamy : exists tc, am_scandate_amy a = Some tc).
  { unfold AMY_TAU_SCANDIFF_DAYS, SCANDATE_AMY in Eg. simpl in Eg.
    destruct (am_scandate_amy a) as [tc|]; [eauto | discriminate]. }
  destruct Hamy as (tc0 & Htc0).
  destruct (merge_asof_sorted_nearest _ _ _ _ _ _ _ _ _ _ _ _ _ Hj Hrow)
    as (r & tl & tr & Hm & _ & _ & _ & Htl & Htr & Hmin).
  { exists a, tc0. auto. }
  injection Hm as <-.
  exists a, tl, tr, g. simpl. repeat split; auto.
  all: intros; eapply Hmin; eauto.
Qed.

Lemma cross_modality_rows_pair_same_subject_witness :
  cross_modality_alignment Int64 Int64 [tau_scan 1 1000]
                           [amy_scan 1 1364; amy_scan 1 900]
  = Ok [(tau_scan 1 1000, Some (amy_scan 1 900))]
  /\ exists a tt ta g,
       Some (amy_scan 1 900) = Some a /\ In (tau_scan 1 1000) [tau_scan 1 1000]
       /\ In a [amy_scan 1 1364; amy_scan 1 900]
       /\ am_rid a = ta_rid (tau_scan 1 1000)
       /\ ta_scandate_tau (tau_scan 1 1000) = Some tt /\ am_scandate_amy a = Some ta
       /\ AMY_TAU_SCANDIFF_DAYS (tau_scan 1 1000, Some (amy_scan 1 900)) = Some g
       /\ Z.abs g < 365
       /\ forall c tc, In c [amy_scan 1 1364; amy_scan 1 900] ->
            am_rid c = ta_rid (tau_scan 1 1000) -> am_scandate_amy c = Some tc ->
            Z.abs (ta - tt) <= Z.abs (tc - tt)
            /\ (Z.abs (tc - tt) = Z.abs (ta - tt) -> ta <= tc).
Proof.
  assert (H : cross_modality_alignment Int64 Int64 [tau_scan 1 1000]
                [amy_scan 1 1364; amy_scan 1 900]
              = Ok [(tau_scan 1 1000, Some (amy_scan 1 900))])
    by (vm_compute; reflexivity).
  split; [exact H|].
  exact (cross_modality_rows_pair_same_subject _ _ _ _ _ H _ (or_introl eq_refl)).
Defined.

Lemma merge_inner_In {L R K} (key_eqb : K -> K -> bool) (lkey : L -> K)
      (rkey : R -> K) (left : list L) (right : list R) l r :
  In (l, r) (merge_inner key_eqb lkey rkey left right) <->
  In l left /\ In r right /\ key_eqb (lkey l) (rkey r) = true.
Proof.
  unfold merge_inner, partners. rewrite in_flat_map. split.
  - intros (l' & Hl' & Hin). apply in_map_iff in Hin as (r' & E & Hr').
    injection E as -> ->. apply filter_In in Hr'. tauto.
  - intros (Hl & Hr & Hk). exists l. split; [exact Hl|].
    apply in_map_iff. exists r. split; [reflexivity|]. apply filter_In. auto.
Qed.

Lemma cell_eq_num (c : Cell) (n : Z) : cell_eq c (CNum n) = true <-> c = CNum n.
Proof.
  destruct c as [|m|s]; simpl; split; try discriminate.
  - intros H. apply Z.eqb_eq in H. now subst.
  - intros H. injection H as ->. apply Z.eqb_refl.
Qed.

Lemma isin_single_str (c : Cell) (s : string) :
  isin c [CStr s] = false <-> c <> CStr s.
Proof.
  unfold isin. simpl. rewrite orb_false_r.
  destruct c as [|m|s']; simpl; split; try congruence; try discriminate.
  - intros H E. injection E as ->. rewrite String.eqb_refl in H. discriminate.
  - intros H. apply String.eqb_neq. congruence.
Qed.

Lemma filter_pet_qc_rows_In {Row} (cell : string -> Row -> Cell) (df : DataFrame Row)
      (qc_col : string) (qc_pass : Cell) (tracer_col : string)
      (excl : option (list Cell)) (r : Row) :
  In r (rows (filter_pet_qc cell df qc_col qc_pass tracer_col excl)) <->
  In r (rows df)
  /\ (in_columns qc_col (columns df) = true -> cell_eq (cell qc_col r) qc_pass = true)
  /\ (truthy excl = true -> in_columns tracer_col (columns df) = true ->
      isin (cell tracer_col r) (exclusion_list excl) = false).
Proof.
  unfold filter_pet_qc.
  destruct (in_columns qc_col (columns df)) eqn:Hq;
    destruct (truthy excl) eqn:Ht; simpl;
    destruct (in_columns tracer_col (columns df)) eqn:Hc; simpl;
    rewrite ?Hq, ?Ht, ?Hc; simpl; rewrite ?filter_In, ?negb_true_iff;
    intuition congruence.
Qed.

(** X8. The PET rows behind a row of the cross-modality frame passed the
    quality filter, whatever the visit-annotated frames are.  The tau row
    is a row of the tau PET frame, with QC flag 2 when the frame has a
    QC_FLAG column and a tracer other than MK6240 when it has a TRACER
    column.  The amyloid row is a row of the amyloid PET frame with QC flag
    2 (when the column exists) and non-null RID, VISCODE and SCANDATE; it
    is paired with a visit-annotated amyloid scan of its subject key whose
    registry visit has the PET row's visit code. *)
Theorem cross_modality_rows_passed_qc :
  forall (dl dr dl' dr' : Dtype) (tau_pet : DataFrame PetRow)
         (tau_with_visit : list VisitRow) (adni2 : list AdniRow)
         (tau_adni_rows : list TauAdniRow) (apoe_raw : list ApoeRow)
         (amy_with_visit : list VisitRow) (amy_pet : DataFrame PetRow)
         (out : list TauAmyRow),
    tau_adni dl dr (tau_merged tau_pet tau_with_visit) adni2 = Ok tau_adni_rows ->
    cross_modality_alignment dl' dr' (tau_adni_apoe tau_adni_rows apoe_raw)
                             (amy_merged amy_with_visit amy_pet) = Ok out ->
    forall row, In row out ->
      (In (ta_pet (fst row)) (rows tau_pet)
       /\ (in_columns "QC_FLAG" (columns tau_pet) = true ->
           pet_cell "QC_FLAG" (ta_pet (fst row)) = CNum 2)
       /\ (in_columns "TRACER" (columns tau_pet) = true ->
           pet_cell "TRACER" (ta_pet (fst row)) <> CStr "MK6240"))
      /\ exists a g,
           snd row = Some a /\ am_visit a = Some g
           /\ In (fst a) amy_with_visit
           /\ In (am_pet a) (rows amy_pet)
           /\ (in_columns "QC_FLAG" (columns amy_pet) = true ->
               pet_cell "QC_FLAG" (am_pet a) = CNum 2)
           /\ p_rid (am_pet a) <> None /\ p_viscode (am_pet a) <> None
           /\ p_scandate (am_pet a) <> None
           /\ am_rid a = p_rid (am_pet a) /\ g_viscode g = p_viscode (am_pet a).
Proof.
  intros dl dr dl' dr' tau_pet tv adni2 ta apoe_raw av amy_pet out Hta H row Hrow.
  unfold cross_modality_alignment, bind in H.
  destruct (tau_amy dl' dr' _ _) as [joined|] eqn:Hj; [|discriminate].
  injection H as <-.
  apply filter_In in Hrow as [Hrow Hgate].
  destruct row as [l m]. simpl fst. simpl snd. split.
  - pose proof (in_map fst _ _ Hrow) as Hl. simpl in Hl.
    destruct (merge_asof_sorted_rows _ _ _ _ _ _ _ _ _ _ _ Hj) as (Hp & _).
    apply (Permutation_in _ Hp) in Hl. unfold tau_adni_apoe in Hl.
    apply filter_In in Hl as [Hl _]. destruct l as [x st].
    apply merge_left_fst in Hl.
    destruct (merge_asof_sorted_rows _ _ _ _ _ _ _ _ _ _ _ Hta) as (Hp' & _).
    pose proof (in_map fst _ _ Hl) as Hx. apply (Permutation_in _ Hp') in Hx.
    destruct x as [[p v] ad]. simpl in Hx. unfold tau_merged in Hx.
    apply merge_left_fst in Hx. apply filter_pet_qc_rows_In in Hx as (H1 & H2 & H3).
    unfold ta_pet. simpl. split; [exact H1|]. split.
    + intros Hq. now apply cell_eq_num, H2.
    + intros Hc. apply isin_single_str. now apply H3.
  - unfold within_a_year in Hgate.
    destruct m as [a|];
      [|unfold AMY_TAU_SCANDIFF_DAYS, SCANDATE_AMY in Hgate; simpl in Hgate;
        discriminate].
    destruct (merge_asof_sorted_scoped _ _ _ _ _ _ _ _ _ _ _ _ _ Hj Hrow)
      as (_ & Ha & _).
    destruct a as [v p]. unfold amy_merged in Ha.
    apply merge_inner_In in Ha as (Hv & Hp & Hk).
    apply filter_In in Hp as [Hp Hnn]. apply filter_pet_qc_rows_In in Hp as (H1 & H2 & _).
    apply andb_true_iff in Hnn as [Hnn Hd]. apply andb_true_iff in Hnn as [Hr Hvc].
    unfold key2_eqb in Hk. simpl in Hk. apply andb_true_iff in Hk as [Hk1 Hk2].
    apply rid_eqb_eq in Hk1. apply ostr_eqb_eq in Hk2.
    destruct v as [s [g|]].
    + exists (s, Some g, p), g. unfold am_pet, am_visit, am_rid. simpl.
      repeat split; auto.
      * intros Hq. now apply cell_eq_num, H2.
      * destruct (p_rid p); [discriminate | discriminate].
      * destruct (p_viscode p); [discriminate | discriminate].
      * destruct (p_scandate p); [discriminate | discriminate].
    + simpl in Hk2. rewrite <- Hk2 in Hvc. discriminate.
Qed.

Lemma cross_modality_rows_passed_qc_witness :
  tau_adni Int64 Int64 (tau_merged pet_frame_sample []) [adni_row 1 1000 "CN"]
  = Ok sample_ta
  /\ cross_modality_alignment Int64 Int64 (tau_adni_apoe sample_ta sample_apoe_raw)
                              (amy_merged sample_amy_with_visit sample_amy_pet)
     = Ok [sample_qc_row]
  /\ (In (ta_pet (fst sample_qc_row)) (rows pet_frame_sample)
      /\ (in_columns "QC_FLAG" (columns pet_frame_sample) = true ->
          pet_cell "QC_FLAG" (ta_pet (fst sample_qc_row)) = CNum 2)
      /\ (in_columns "TRACER" (columns pet_frame_sample) = true ->
          pet_cell "TRACER" (ta_pet (fst sample_qc_row)) <> CStr "MK6240")).
Proof.
  assert (H1 : tau_adni Int64 Int64 (tau_merged pet_frame_sample [])
                        [adni_row 1 1000 "CN"]
               = Ok sample_ta) by (vm_compute; reflexivity).
  assert (H2 : cross_modality_alignment Int64 Int64
                 (tau_adni_apoe sample_ta sample_apoe_raw)
                 (amy_merged sample_amy_with_visit sample_amy_pet)
               = Ok [sample_qc_row]) by (vm_compute; reflexivity).
  split; [exact H1|]. split; [exact H2|].
  exact (proj1 (cross_modality_rows_passed_qc _ _ _ _ _ _ _ _ _ _ _ _ H1 H2
                  _ (or_introl eq_refl))).
Defined.

Lemma merge_left_covers {L R K} (key_eqb : K -> K -> bool) (lkey : L -> K)
      (rkey : R -> K) (left : list L) (right : list R) (l : L) :
  In l left -> exists m, In (l, m) (merge_left key_eqb lkey rkey left right).
Proof.
  intros Hl.
  destruct (partners key_eqb lkey rkey l right) as [|r rs] eqn:E.
  - exists None. apply merge_left_none. split; [exact Hl|]. intros r Hr.
    destruct (key_eqb (lkey l) (rkey r)) eqn:Hk; [|reflexivity].
    assert (Hin : In r (partners key_eqb lkey rkey l right))
      by (apply filter_In; auto).
    rewrite E in Hin. destruct Hin.
  - exists (Some r). apply merge_left_some.
    assert (Hin : In r (partners key_eqb lkey rkey l right))
      by (rewrite E; now left).
    apply filter_In in Hin. tauto.
Qed.

Lemma merge_asof_sorted_null_error {L R} (lby lon : L -> option Z)
      (rby ron : R -> option Z) (ldt rdt : Dtype) (left : list L) (right : list R)
      (s : Side) :
  merge_asof_sorted lby lon rby ron ldt rdt left right = Raise (MergeKeysNull s) <->
  ldt = rdt
  /\ ((s = LeftSide /\ exists l, In l left /\ lon l = None)
      \/ (s = RightSide /\ keys_accepted lon (sort_values lby lon left)
          /\ exists r, In r right /\ ron r = None)).
Proof.
  unfold merge_asof_sorted, merge_asof.
  destruct (dtype_eqb ldt rdt) eqn:E.
  - apply dtype_eqb_eq in E. rewrite merge_asof_null_error.
    split.
    + intros [[Hs (l & Hl & El)]|[Hs (Hacc & r & Hr & Er)]]; (split; [exact E|]).
      * left. split; [exact Hs|]. exists l. split; [now apply sort_values_In in Hl | exact El].
      * right. split; [exact Hs|]. split; [exact Hacc|].
        exists r. split; [now apply sort_values_In in Hr | exact Er].
    + intros [_ [[Hs (l & Hl & El)]|[Hs (Hacc & r & Hr & Er)]]].
      * left. split; [exact Hs|]. exists l. split; [now apply sort_values_In | exact El].
      * right. split; [exact Hs|]. split; [exact Hacc|].
        exists r. split; [now apply sort_values_In | exact Er].
  - split; [discriminate|]. intros [H _]. apply dtype_eqb_eq in H. congruence.
Qed.

(** X9. The tau-to-assessment join raises the null-merge-key error on the
    left side exactly when the subject key columns have the same dtype and
    a tau PET row that passed the quality filter has no SCANDATE, whatever
    the visit-annotated frame is; it raises it on the right side only
    through an assessment row without EXAMDATE.  Once that join has
    returned, the cross-modality join never raises the error on the left
    side. *)
Theorem inline_joins_null_key_errors :
  forall (dl dr : Dtype) (tau_pet : DataFrame PetRow)
         (tau_with_visit : list VisitRow) (adni2 : list AdniRow),
    let passed := rows (filter_pet_qc pet_cell tau_pet "QC_FLAG" (CNum 2)
                                      "TRACER" (Some [CStr "MK6240"])) in
    (tau_adni dl dr (tau_merged tau_pet tau_with_visit) adni2
     = Raise (MergeKeysNull LeftSide)
     <-> dl = dr /\ exists p, In p passed /\ p_scandate p = None)
    /\ (tau_adni dl dr (tau_merged tau_pet tau_with_visit) adni2
        = Raise (MergeKeysNull RightSide) ->
        exists a, In a adni2 /\ a_examdate a = None)
    /\ (forall tau_adni_rows,
          tau_adni dl dr (tau_merged tau_pet tau_with_visit) adni2
          = Ok tau_adni_rows ->
          forall (dl' dr' : Dtype) (apoe_raw : list ApoeRow)
                 (amy_merged : list AmyMergedRow),
            tau_amy dl' dr' (tau_adni_apoe tau_adni_rows apoe_raw) amy_merged
            <> Raise (MergeKeysNull LeftSide)).
Proof.
  intros dl dr tau_pet tv adni2 passed.
  split; [|split].
  - unfold tau_adni. split.
    + intros H. apply merge_asof_sorted_null_error in H
        as [Hdt [[_ (l & Hl & El)]|[Hs _]]]; [|discriminate].
      split; [exact Hdt|].
      destruct l as [p v]. unfold tau_merged in Hl.
      apply merge_left_fst in Hl. exists p. auto.
    + intros [Hdt (p & Hp & Hn)]. apply merge_asof_sorted_null_error.
      split; [exact Hdt|]. left. split; [reflexivity|].
      destruct (merge_left_covers key2_eqb (fun p => (p_rid p, p_viscode p))
                  (fun v : VisitRow => (scan_rid (fst v), scan_viscode (fst v)))
                  passed tv p Hp) as (m & Hm).
      exists (p, m). split; [exact Hm | exact Hn].
  - unfold tau_adni. intros H. apply merge_asof_sorted_null_error in H
      as [_ [[Hs _]|[_ (_ & r & Hr & Er)]]]; [discriminate|]. eauto.
  - intros ta Hta dl' dr' apoe_raw amerged E.
    unfold tau_amy in E. apply merge_asof_sorted_null_error in E
      as [_ [[_ (l & Hl & El)]|[Hs _]]]; [|discriminate].
    unfold tau_adni_apoe in Hl.
    apply filter_In in Hl as [Hl _]. destruct l as [x st].
    apply merge_left_fst in Hl.
    unfold tau_adni in Hta. apply merge_asof_sorted_inv in Hta as [_ Hta].
    pose proof (merge_asof_length _ _ _ _ _ _ _ _ _ Hta) as Hfst.
    apply merge_asof_ok in Hta as ([Hnn _] & _).
    apply (in_map fst) in Hl. rewrite Hfst in Hl.
    now apply (Hnn _ Hl).
Qed.

Lemma inline_joins_null_key_errors_witness :
  (Int64 = Int64
   /\ exists p,
        In p (rows (filter_pet_qc pet_cell pet_frame_undated "QC_FLAG" (CNum 2)
                                  "TRACER" (Some [CStr "MK6240"])))
        /\ p_scandate p = None)
  /\ tau_adni Int64 Int64 (tau_merged pet_frame_undated []) adni_two_subjects
     = Raise (MergeKeysNull LeftSide).
Proof.
  assert (Hp : Int64 = Int64
               /\ exists p,
                    In p (rows (filter_pet_qc pet_cell pet_frame_undated "QC_FLAG"
                                              (CNum 2) "TRACER" (Some [CStr "MK6240"])))
                    /\ p_scandate p = None).
  { split; [reflexivity|]. exists (fst scan_without_date).
    split; [left; reflexivity | reflexivity]. }
  split; [exact Hp|].
  exact (proj2 (proj1 (inline_joins_null_key_errors Int64 Int64 pet_frame_undated []
                         adni_two_subjects)) Hp).
Defined.

(** ** [add_apoe4_status] and the genotype merge *)

Lemma mapping_range (g : string) (v : Z) : dict_get mapping g = Some v -> 0 <= v <= 2.
Proof.
  unfold mapping. simpl.
  repeat match goal with
         | |- context [if ?b then _ else _] => destruct b
         end; intros H; try discriminate; injection H as <-; lia.
Qed.

Lemma drop_duplicates_last_keys {A K} (key_eqb : K -> K -> bool) (key : A -> K)
      (l : list A) (k : K) :
  (forall a b, key_eqb a b = true <-> a = b) ->
  In k (map key (drop_duplicates_last key_eqb key l)) <-> In k (map key l).
Proof.
  intros Heq. split.
  - intros H. apply in_map_iff in H as (x & <- & Hx).
    apply in_map, (drop_duplicates_last_incl _ _ key_eqb key), Hx.
  - intros H.
    destruct (drop_duplicates_last_one _ _ key_eqb key Heq l k H)
      as (x & _ & _ & Hf & _ & Hx & _).
    assert (Hin : In x (filter (fun y => key_eqb (key y) k)
                               (drop_duplicates_last key_eqb key l)))
      by (rewrite Hf; now left).
    apply filter_In in Hin as [Hin _]. rewrite <- Hx. now apply in_map.
Qed.

(** X10. The status frame [add_apoe4_status] returns has one row per
    subject key of the genotype frame: no subject key twice, and exactly
    the subject keys of the input.  Each APOE4 value is null or one of 0, 1
    and 2; it is null exactly when the genotype of the kept record is null
    or not a key of the lookup table. *)
Theorem add_apoe4_status_one_row_per_subject :
  forall apoe_df : list ApoeRow,
    NoDup (map s_rid (add_apoe4_status apoe_df))
    /\ (forall k, In k (map s_rid (add_apoe4_status apoe_df))
                  <-> In k (map ap_rid apoe_df))
    /\ (List.length (add_apoe4_status apoe_df) <= List.length apoe_df)%nat
    /\ forall s, In s (add_apoe4_status apoe_df) ->
         (s_apoe4 s = None \/ exists v, s_apoe4 s = Some v /\ 0 <= v <= 2)
         /\ exists g, In g apoe_df /\ ap_rid g = s_rid s
                      /\ s_apoe4 s = map_mapping (ap_genotype g).
Proof.
  intros apoe_df. unfold add_apoe4_status.
  assert (Hmap : map s_rid
            (map (fun r => {| s_rid := ap_rid r;
                              s_apoe4 := map_mapping (ap_genotype r) |})
                 (drop_duplicates_last rid_eqb ap_rid apoe_df))
          = map ap_rid (drop_duplicates_last rid_eqb ap_rid apoe_df)).
  { rewrite map_map. reflexivity. }
  rewrite Hmap. split; [|split; [|split]].
  - apply drop_duplicates_last_NoDup. exact rid_eqb_eq.
  - intros k. apply drop_duplicates_last_keys. exact rid_eqb_eq.
  - rewrite length_map. apply NoDup_incl_length.
    + eapply NoDup_map_inv. apply (drop_duplicates_last_NoDup _ _ rid_eqb ap_rid).
      exact rid_eqb_eq.
    + intros x. apply drop_duplicates_last_incl.
  - intros s Hs. apply in_map_iff in Hs as (g & <- & Hg). simpl. split.
    + unfold map_mapping. destruct (ap_genotype g) as [str|]; [|now left].
      destruct (dict_get mapping str) as [v|] eqn:E; [|now left].
      right. exists v. split; [reflexivity | now apply mapping_range in E].
    + exists g. split; [|auto].
      now apply (drop_duplicates_last_incl _ _ rid_eqb ap_rid).
Qed.

Lemma partners_unique {R K} (key_eqb : K -> K -> bool) (rkey : R -> K)
      (right : list R) (k : K) :
  (forall a b, key_eqb a b = true <-> a = b) ->
  NoDup (map rkey right) ->
  (List.length (filter (fun r => key_eqb k (rkey r)) right) <= 1)%nat.
Proof.
  intros Heq. induction right as [|r right IH]; simpl; intros Hnd; [lia|].
  inversion Hnd as [|? ? Hr Hnd']; subst.
  destruct (key_eqb k (rkey r)) eqn:E; [|now apply IH].
  apply Heq in E. subst k. simpl.
  rewrite filter_none; [simpl; lia|].
  intros x Hx. destruct (key_eqb (rkey r) (rkey x)) eqn:E; [|reflexivity].
  apply Heq in E. destruct Hr. rewrite E. now apply in_map.
Qed.

Lemma merge_left_one_to_one {L R K} (key_eqb : K -> K -> bool) (lkey : L -> K)
      (rkey : R -> K) (left : list L) (right : list R) :
  (forall a b, key_eqb a b = true <-> a = b) ->
  NoDup (map rkey right) ->
  merge_left key_eqb lkey rkey left right
  = map (fun l => (l, hd_error (partners key_eqb lkey rkey l right))) left.
Proof.
  intros Heq Hnd. unfold merge_left.
  induction left as [|l left IH]; [reflexivity|].
  cbn [flat_map]. rewrite map_cons, IH.
  pose proof (partners_unique key_eqb rkey right (lkey l) Heq Hnd) as Hlen.
  fold (partners key_eqb lkey rkey l right) in Hlen.
  destruct (partners key_eqb lkey rkey l right) as [|r [|r' rs]]; simpl in *;
    try reflexivity; lia.
Qed.

(** X11. Because the status frame has one row per subject key, merging it
    onto the assessment-matched tau rows neither duplicates nor drops a
    row: the merged frame has the tau rows in their order.  The frame left
    after the null filter on APOE4 and DX is a selection of those rows, in
    order and without repetition. *)
Theorem genotype_merge_is_one_to_one :
  forall (tau_adni : list TauAdniRow) (apoe_raw : list ApoeRow),
    map fst (merge_left rid_eqb (fun r : TauAdniRow => tm_rid (fst r)) s_rid
                        tau_adni (add_apoe4_status apoe_raw))
    = tau_adni
    /\ exists keep : TauAdniRow -> bool,
         map fst (tau_adni_apoe tau_adni apoe_raw) = filter keep tau_adni
         /\ (List.length (tau_adni_apoe tau_adni apoe_raw)
             <= List.length tau_adni)%nat.
Proof.
  intros tau_adni apoe_raw.
  assert (Hnd : NoDup (map s_rid (add_apoe4_status apoe_raw))).
  { unfold add_apoe4_status. rewrite map_map. simpl.
    apply drop_duplicates_last_NoDup. exact rid_eqb_eq. }
  pose proof (merge_left_one_to_one rid_eqb (fun r : TauAdniRow => tm_rid (fst r))
                s_rid tau_adni (add_apoe4_status apoe_raw) rid_eqb_eq Hnd) as Hm.
  split.
  - rewrite Hm, map_map. simpl. apply map_id.
  - unfold tau_adni_apoe. rewrite Hm.
    set (f := fun l : TauAdniRow => (l, hd_error (partners rid_eqb
                 (fun r : TauAdniRow => tm_rid (fst r)) s_rid l
                 (add_apoe4_status apoe_raw)))).
    set (q := fun r : TauApoeRow => notna (ta_apoe4 r) && notna (ta_dx r)).
    exists (fun x => q (f x)).
    assert (E : map fst (filter q (map f tau_adni)) = filter (fun x => q (f x)) tau_adni).
    { rewrite filter_map_comm, map_map. simpl. apply map_id. }
    split; [exact E|].
    pose proof (f_equal (@List.length _) E) as Hl. rewrite length_map in Hl.
    etransitivity; [apply Nat.eq_le_incl; exact Hl | apply filter_length_le].
Qed.

(** ** The metadata merges and the PET merge *)

Lemma merge_left_length {L R K} (key_eqb : K -> K -> bool) (lkey : L -> K)
      (rkey : R -> K) (left : list L) (right : list R) :
  (List.length left <= List.length (merge_left key_eqb lkey rkey left right))%nat.
Proof.
  unfold merge_left. induction left as [|l left IH]; [simpl; lia|].
  cbn [flat_map]. rewrite length_app.
  change (List.length (l :: left)) with (S (List.length left)).
  set (n := List.length (flat_map _ left)) in *.
  destruct (partners key_eqb lkey rkey l right) as [|r rs];
    [|rewrite length_map]; simpl List.length; lia.
Qed.

(** X12. The tau metadata merge is a left join on subject key and visit
    code: every metadata row is in the result at least once, paired with
    each QC row of the same subject key and visit code, or with nothing
    when there is none.  The SCANDATE of a result row is the metadata date
    when the metadata row has one, else the date of its QC row. *)
Theorem tau_merge_keeps_every_metadata_row :
  forall (taumeta : list MetaRow) (tau_qc : list QcRow),
    (forall m, In m taumeta <-> exists q, In (m, q) (tau taumeta tau_qc))
    /\ (forall m q, In (m, Some q) (tau taumeta tau_qc) <->
          In m taumeta /\ In q tau_qc
          /\ m_rid m = q_rid q /\ m_viscode m = q_viscode q)
    /\ (forall m, In (m, None) (tau taumeta tau_qc) <->
          In m taumeta
          /\ forall q, In q tau_qc ->
               ~ (m_rid m = q_rid q /\ m_viscode m = q_viscode q))
    /\ (forall m q t, In (m, q) (tau taumeta tau_qc) ->
          m_scandate m = Some t -> scan_date (m, q) = Some t)
    /\ (forall m q, In (m, Some q) (tau taumeta tau_qc) ->
          m_scandate m = None -> scan_date (m, Some q) = q_scandate q)
    /\ (List.length taumeta <= List.length (tau taumeta tau_qc))%nat.
Proof.
  intros taumeta tau_qc. unfold tau.
  assert (Hkey : forall m q,
            key2_eqb (m_rid m, m_viscode m) (q_rid q, q_viscode q) = true
            <-> m_rid m = q_rid q /\ m_viscode m = q_viscode q).
  { intros m q. unfold key2_eqb. simpl.
    now rewrite andb_true_iff, rid_eqb_eq, ostr_eqb_eq. }
  split; [|split; [|split; [|split; [|split]]]].
  - intros m. split.
    + apply merge_left_covers.
    + intros (q & H). eapply merge_left_fst; eauto.
  - intros m q. rewrite merge_left_some, Hkey. tauto.
  - intros m. rewrite merge_left_none. split; intros [Hm Hq]; (split; [exact Hm|]);
      intros q Hin; specialize (Hq q Hin).
    + intros Hk. apply Hkey in Hk. congruence.
    + destruct (key2_eqb _ _) eqn:E; [|reflexivity]. apply Hkey in E. tauto.
  - intros m q t _ Ht. unfold scan_date. simpl. now rewrite Ht.
  - intros m q _ Ht. unfold scan_date. simpl. now rewrite Ht.
  - apply merge_left_length.
Qed.

(** X13. The PET merge of section 4 is a left join from the PET rows that
    passed the quality filter: each of them is in [tau_merged] at least
    once, also when no visit-annotated tau scan has its subject key and
    visit code, and no other PET row is.  A paired scan has the PET row's
    subject key and visit code. *)
Theorem tau_merged_holds_the_filtered_pet_rows :
  forall (tau_pet : DataFrame PetRow) (tau_with_visit : list VisitRow),
    let passed := rows (filter_pet_qc pet_cell tau_pet "QC_FLAG" (CNum 2)
                                      "TRACER" (Some [CStr "MK6240"])) in
    (forall p, In p passed <-> exists v, In (p, v) (tau_merged tau_pet tau_with_visit))
    /\ (forall p v, In (p, Some v) (tau_merged tau_pet tau_with_visit) ->
          In v tau_with_visit
          /\ p_rid p = scan_rid (fst v) /\ p_viscode p = scan_viscode (fst v))
    /\ (forall p, In (p, None) (tau_merged tau_pet tau_with_visit) <->
          In p passed
          /\ forall v, In v tau_with_visit ->
               ~ (p_rid p = scan_rid (fst v) /\ p_viscode p = scan_viscode (fst v)))
    /\ (forall p v, In (p, v) (tau_merged tau_pet tau_with_visit) ->
          In p (rows tau_pet)
          /\ (in_columns "QC_FLAG" (columns tau_pet) = true ->
              pet_cell "QC_FLAG" p = CNum 2)
          /\ (in_columns "TRACER" (columns tau_pet) = true ->
              pet_cell "TRACER" p <> CStr "MK6240")).
Proof.
  intros tau_pet tv passed. unfold tau_merged. fold passed.
  assert (Hkey : forall (p : PetRow) (v : VisitRow),
            key2_eqb (p_rid p, p_viscode p) (scan_rid (fst v), scan_viscode (fst v))
            = true
            <-> p_rid p = scan_rid (fst v) /\ p_viscode p = scan_viscode (fst v)).
  { intros p v. unfold key2_eqb. simpl.
    now rewrite andb_true_iff, rid_eqb_eq, ostr_eqb_eq. }
  split; [|split; [|split]].
  - intros p. split.
    + apply merge_left_covers.
    + intros (v & H). eapply merge_left_fst; eauto.
  - intros p v H. apply merge_left_some in H as (_ & Hv & Hk).
    apply Hkey in Hk. tauto.
  - intros p. rewrite merge_left_none. split; intros [Hp Hv]; (split; [exact Hp|]);
      intros v Hin; specialize (Hv v Hin).
    + intros Hk. apply Hkey in Hk. congruence.
    + destruct (key2_eqb _ _) eqn:E; [|reflexivity]. apply Hkey in E. tauto.
  - intros p v H. apply merge_left_fst in H. unfold passed in H.
    apply filter_pet_qc_rows_In in H as (H1 & H2 & H3).
    split; [exact H1|]. split.
    + intros Hq. now apply cell_eq_num, H2.
    + intros Hc. apply isin_single_str. now apply H3.
Qed.

(** ** The amyloid frame of section 7 *)

Lemma key_date_eqb_eq (a b : option Z * option Z) : key_date_eqb a b = true <-> a = b.
Proof.
  destruct a as [a1 a2], b as [b1 b2]. unfold key_date_eqb. simpl.
  rewrite andb_true_iff, !rid_eqb_eq. split; [intros [-> ->]; reflexivity|].
  intros H. injection H as -> ->. auto.
Qed.

Section DropDuplicatesFirst.
Variables A K : Type.
Variable key_eqb : K -> K -> bool.
Variable key : A -> K.
Hypothesis key_eqb_eq : forall a b, key_eqb a b = true <-> a = b.

Lemma drop_duplicates_from_spec (seen l : list A) :
  (forall x, In x (drop_duplicates_from A K key_eqb key seen l) ->
     In x l /\ forall s, In s seen -> key s <> key x)
  /\ NoDup (map key (drop_duplicates_from A K key_eqb key seen l))
  /\ (forall x, In x l ->
        (exists s, In s seen /\ key s = key x)
        \/ exists y, In y (drop_duplicates_from A K key_eqb key seen l)
                     /\ key y = key x).
Proof.
  revert seen. induction l as [|a l IH]; intros seen; simpl.
  - split; [intros x []|split; [constructor | intros x []]].
  - destruct (existsb (same_key key_eqb key a) seen) eqn:Ex.
    + destruct (IH seen) as (H1 & H2 & H3). split; [|split].
      * intros x Hx. destruct (H1 x Hx). auto.
      * exact H2.
      * intros x [<-|Hx]; [|now apply H3].
        left. apply (existsb_same_key _ _ key_eqb key key_eqb_eq) in Ex.
        exact Ex.
    + destruct (IH (a :: seen)) as (H1 & H2 & H3). split; [|split].
      * intros x [<-|Hx].
        -- split; [now left|]. intros s Hs E.
           assert (existsb (same_key key_eqb key a) seen = true); [|congruence].
           apply (existsb_same_key _ _ key_eqb key key_eqb_eq). eauto.
        -- destruct (H1 x Hx) as [Hin Hseen]. split; [now right|].
           intros s Hs. apply Hseen. now right.
      * simpl. constructor; [|exact H2].
        intros Hin. apply in_map_iff in Hin as (y & E & Hy).
        destruct (H1 y Hy) as [_ Hseen]. apply (Hseen a); [now left | congruence].
      * intros x [<-|Hx]; [right; exists a; split; [now left | reflexivity]|].
        destruct (H3 x Hx) as [(s & [<-|Hs] & E)|(y & Hy & E)].
        -- right. exists a. split; [now left | exact E].
        -- left. eauto.
        -- right. exists y. split; [now right | exact E].
Qed.
End DropDuplicatesFirst.

(** X14. Every row of the amyloid frame built in section 7 has a subject
    key and a scan date, and no two rows share both.  A row pairs a
    metadata row with a QC row of the same subject key, whatever their
    visit codes.  Every metadata row that has a subject key and a date is
    represented by a row with that key and date.  So the null filter at
    the head of the registry join removes no row of the amyloid frame. *)
Theorem amy_frame_is_dated_and_deduplicated :
  forall (amy_meta : list MetaRow) (amy_qc : list QcRow),
    (forall r, In r (amy amy_meta amy_qc) ->
       scan_rid r <> None /\ scan_date r <> None /\ In (fst r) amy_meta
       /\ forall q, snd r = Some q -> In q amy_qc /\ q_rid q = m_rid (fst r))
    /\ NoDup (map (fun r => (scan_rid r, scan_date r)) (amy amy_meta amy_qc))
    /\ (forall m, In m amy_meta -> m_rid m <> None -> m_scandate m <> None ->
          exists r, In r (amy amy_meta amy_qc)
                    /\ scan_rid r = m_rid m /\ scan_date r = m_scandate m)
    /\ dropna2 scan_rid scan_date (amy amy_meta amy_qc) = amy amy_meta amy_qc.
Proof.
  intros amy_meta amy_qc. unfold amy.
  set (merged := merge_left rid_eqb m_rid q_rid amy_meta amy_qc).
  set (dated := dropna2 scan_rid scan_date merged).
  destruct (drop_duplicates_from_spec _ _ key_date_eqb
              (fun r : ScanRow => (scan_rid r, scan_date r)) key_date_eqb_eq [] dated)
    as (H1 & H2 & H3).
  fold (drop_duplicates_first key_date_eqb
          (fun r : ScanRow => (scan_rid r, scan_date r)) dated) in H1, H2, H3.
  assert (Hrows : forall r,
            In r (drop_duplicates_first key_date_eqb
                    (fun r : ScanRow => (scan_rid r, scan_date r)) dated) ->
            scan_rid r <> None /\ scan_date r <> None /\ In (fst r) amy_meta
            /\ forall q, snd r = Some q -> In q amy_qc /\ q_rid q = m_rid (fst r)).
  { intros r Hr. destruct (H1 r Hr) as [Hd _]. unfold dated in Hd.
    apply dropna2_In in Hd as (Hm & Hrid & Hdate). unfold merged in Hm.
    destruct r as [m q]. simpl.
    repeat split; auto.
    - eapply merge_left_fst; eauto.
    - subst q. apply merge_left_some in Hm. tauto.
    - subst q. apply merge_left_some in Hm as (_ & _ & Hk).
      apply rid_eqb_eq in Hk. congruence. }
  split; [exact Hrows|]. split; [exact H2|]. split.
  - intros m Hm Hrid Hdate.
    destruct (merge_left_covers rid_eqb m_rid q_rid amy_meta amy_qc m Hm) as (q & Hq).
    assert (Hsd : scan_date (m, q) = m_scandate m).
    { unfold scan_date. simpl. destruct (m_scandate m); [reflexivity | congruence]. }
    assert (Hd : In (m, q) dated).
    { apply dropna2_In. unfold scan_rid. simpl. rewrite Hsd. auto. }
    destruct (H3 _ Hd) as [(s & [] & _)|(y & Hy & E)].
    exists y. split; [exact Hy|]. injection E as E1 E2.
    unfold scan_rid in *. simpl in *. split; congruence.
  - unfold dropna2. apply filter_all.
    intros r Hr. destruct (Hrows r Hr) as (Hrid & Hdate & _).
    destruct (scan_rid r), (scan_date r); simpl; congruence.
Qed.

(** ** The region selector: errors and shape of the result *)

(** X15. The region selector returns exactly when the catalog has at least
    84 labels, whatever the table's columns and [str.upper] are; on a shorter catalog it
    raises the index error of [np.delete], reporting the first subcortical
    position that is past the end. *)
Theorem tau_amy_cortical_needs_84_labels :
  forall (str_upper : string -> string) (fs_region cols : list string),
    ((exists out, tau_amy_cortical str_upper fs_region cols = Ok out)
     <-> (83 < List.length fs_region)%nat)
    /\ ((List.length fs_region <= 83)%nat ->
        exists i, In i subcortical_idx /\ (List.length fs_region <= i)%nat
                  /\ tau_amy_cortical str_upper fs_region cols
                     = Raise (IndexOutOfBounds i (List.length fs_region))).
Proof.
  intros str_upper fs_region cols. unfold tau_amy_cortical, np_delete, bind.
  rewrite length_map.
  destruct (find (fun i => (List.length fs_region <=? i)%nat) subcortical_idx)
    as [i|] eqn:E.
  - apply find_some in E as [Hi Hle]. apply Nat.leb_le in Hle.
    pose proof (subcortical_idx_bound i Hi) as Hb. split.
    + split; [intros (out & H); discriminate | lia].
    + intros _. exists i. auto.
  - assert (H83 : (83 < List.length fs_region)%nat).
    { pose proof (find_none _ _ E 83%nat) as H. simpl in H.
      apply Nat.leb_gt, H. unfold subcortical_idx. simpl. tauto. }
    split; [|lia]. split; [intros _; exact H83 | intros _; eauto].
Qed.

Lemma delete_from_In {A} (k : nat) (arr : list A) (idx : list nat) (x : A) :
  In x (delete_from k arr idx) -> In x arr.
Proof.
  revert k. induction arr as [|a arr IH]; simpl; intros k; [tauto|].
  destruct (existsb (Nat.eqb k) idx); simpl; intros H.
  - right. eauto.
  - destruct H as [<-|H]; [now left | right; eauto].
Qed.

Lemma delete_from_NoDup {A} (k : nat) (arr : list A) (idx : list nat) :
  NoDup arr -> NoDup (delete_from k arr idx).
Proof.
  revert k. induction arr as [|a arr IH]; simpl; intros k Hnd; [constructor|].
  inversion Hnd as [|? ? Ha Hnd']; subst.
  destruct (existsb (Nat.eqb k) idx); [now apply IH|].
  constructor; [|now apply IH]. intros Hin. apply delete_from_In in Hin. contradiction.
Qed.

(** X16. Whenever the region selector returns, every column of the result
    is a column of the table, and a result column ending in _SUVR is a
    catalog label.  When the table's columns are distinct and so are the
    normalised catalog labels, the result has no column twice and at most
    as many columns as the table. *)
Theorem tau_amy_cortical_selects_table_columns :
  forall (str_upper : string -> string) (fs_region cols out : list string),
    tau_amy_cortical str_upper fs_region cols = Ok out ->
    (forall c, In c out -> In c cols)
    /\ (forall c, In c out -> endswith c "_SUVR" = true ->
          In c (map (FS_LABEL str_upper) fs_region))
    /\ (NoDup cols -> NoDup (map (FS_LABEL str_upper) fs_region) ->
        NoDup out /\ (List.length out <= List.length cols)%nat).
Proof.
  intros str_upper fs_region cols out H. unfold tau_amy_cortical, bind in H.
  destruct (np_delete (map (FS_LABEL str_upper) fs_region) subcortical_idx)
    as [ordered|] eqn:Ed;
    [|discriminate].
  injection H as <-.
  assert (Hord : ordered = delete_from 0%nat (map (FS_LABEL str_upper) fs_region)
                                       subcortical_idx).
  { unfold np_delete in Ed. destruct (find _ _); [discriminate|]. now injection Ed. }
  assert (Hsub : forall c, In c (select_columns cols
                    (non_suvr_cols cols ++ suvr_cols_ordered ordered cols)) ->
                 In c cols).
  { intros c Hc. apply select_columns_In in Hc. tauto. }
  split; [exact Hsub|]. split.
  - intros c Hc He. apply select_columns_In in Hc as [Hc _].
    apply in_app_or in Hc as [Hc|Hc]; apply filter_In in Hc as [Hc1 Hc2].
    + rewrite He in Hc2. discriminate.
    + subst ordered. eapply delete_from_In; eauto.
  - intros Hnd Hlab.
    assert (Hout : NoDup (select_columns cols
                     (non_suvr_cols cols ++ suvr_cols_ordered ordered cols))).
    { rewrite select_columns_NoDup;
        [|exact Hnd | intros c; apply requested_columns_exist].
      apply NoDup_app.
      - now apply NoDup_filter.
      - apply NoDup_filter. subst ordered. now apply delete_from_NoDup.
      - intros c Hc1 Hc2. apply filter_In in Hc1 as [_ Hc1].
        apply filter_In in Hc2 as [Hc2 _]. subst ordered.
        apply delete_from_In, in_map_iff in Hc2 as (raw & <- & _).
        rewrite FS_LABEL_endswith in Hc1. discriminate. }
    split; [exact Hout|]. now apply NoDup_incl_length.
Qed.

Lemma tau_amy_cortical_selects_table_columns_witness :
  tau_amy_cortical ascii_upper sample_catalog sample_columns
  = Ok ["RID"; "DX"; "APOE4"; "REGION_2_SUVR"; "REGION_5_SUVR"]%string
  /\ forall c, In c ["RID"; "DX"; "APOE4"; "REGION_2_SUVR"; "REGION_5_SUVR"]%string ->
               In c sample_columns.
Proof.
  assert (H : tau_amy_cortical ascii_upper sample_catalog sample_columns
              = Ok ["RID"; "DX"; "APOE4"; "REGION_2_SUVR"; "REGION_5_SUVR"]%string)
    by (vm_compute; reflexivity).
  split; [exact H|].
  exact (proj1 (tau_amy_cortical_selects_table_columns _ _ _ _ H)).
Defined.

(** ** The quality filter *)

(** X18. The quality filter only selects rows: its rows are the input rows
    that pass a test, in input order, and its schema is the input's.  When
    the QC column exists, no kept row has a null QC cell, and a null pass
    value keeps no row at all.  When the QC column is absent and no
    non-empty exclusion list is given, the frame is returned as it is. *)
Theorem filter_pet_qc_selects_rows :
  forall (Row : Type) (cell : string -> Row -> Cell) (df : DataFrame Row)
         (qc_col : string) (qc_pass : Cell) (tracer_col : string)
         (exclude_tracers : option (list Cell)),
    let out := filter_pet_qc cell df qc_col qc_pass tracer_col exclude_tracers in
    (exists keep, rows out = filter keep (rows df))
    /\ (List.length (rows out) <= List.length (rows df))%nat
    /\ (in_columns qc_col (columns df) = true ->
        (forall r, In r (rows out) -> cell qc_col r <> CNull)
        /\ (qc_pass = CNull -> rows out = []))
    /\ (in_columns qc_col (columns df) = false -> truthy exclude_tracers = false ->
        out = df).
Proof.
  intros Row cell df qc_col qc_pass tracer_col excl out.
  assert (Hkeep : exists keep, rows out = filter keep (rows df)).
  { unfold out, filter_pet_qc.
    destruct (in_columns qc_col (columns df));
      destruct (truthy excl && in_columns tracer_col _) eqn:E; simpl; rewrite ?E; simpl.
    - exists (fun r => cell_eq (cell qc_col r) qc_pass
                       && negb (isin (cell tracer_col r) (exclusion_list excl))).
      clear. induction (rows df) as [|r l IH]; simpl; [reflexivity|].
      destruct (cell_eq (cell qc_col r) qc_pass); simpl; [|exact IH].
      destruct (negb _); simpl; now rewrite IH.
    - eexists. reflexivity.
    - eexists. reflexivity.
    - exists (fun _ => true). symmetry. apply filter_all. reflexivity. }
  split; [exact Hkeep|]. split; [|split].
  - destruct Hkeep as (keep & ->). apply filter_length_le.
  - intros Hq.
    assert (Hin : forall r, In r (rows out) -> cell_eq (cell qc_col r) qc_pass = true).
    { intros r Hr. apply filter_pet_qc_rows_In in Hr. tauto. }
    split.
    + intros r Hr E. specialize (Hin r Hr). rewrite E in Hin. discriminate.
    + intros ->. destruct (rows out) as [|r l] eqn:E; [reflexivity|].
      specialize (Hin r (or_introl eq_refl)). destruct (cell qc_col r); discriminate.
  - intros Hq Ht. unfold out, filter_pet_qc. rewrite Hq, Ht. reflexivity.
Qed.

(** ** The amyloid PET merge of section 8 *)

(** X19. The amyloid merge is an inner join: a pair is in [amy_merged]
    exactly when the PET row passed the QC test (no tracer is excluded
    here), has a subject key, a visit code and a scan date, and the scan
    has the PET row's subject key and was matched to a registry visit with
    the PET row's visit code.  An amyloid scan left without registry visit
    therefore never reaches [amy_merged]. *)
Theorem amy_merged_is_inner_join :
  forall (amy_with_visit : list VisitRow) (amy_pet : DataFrame PetRow)
         (v : VisitRow) (p : PetRow),
    (In (v, p) (amy_merged amy_with_visit amy_pet) <->
     In v amy_with_visit /\ In p (rows amy_pet)
     /\ (in_columns "QC_FLAG" (columns amy_pet) = true ->
         pet_cell "QC_FLAG" p = CNum 2)
     /\ p_rid p <> None /\ p_viscode p <> None /\ p_scandate p <> None
     /\ scan_rid (fst v) = p_rid p
     /\ exists g, snd v = Some g /\ g_viscode g = p_viscode p)
    /\ (snd v = None -> ~ In (v, p) (amy_merged amy_with_visit amy_pet)).
Proof.
  intros av amy_pet v p.
  assert (Hiff : In (v, p) (amy_merged av amy_pet) <->
     In v av /\ In p (rows amy_pet)
     /\ (in_columns "QC_FLAG" (columns amy_pet) = true ->
         pet_cell "QC_FLAG" p = CNum 2)
     /\ p_rid p <> None /\ p_viscode p <> None /\ p_scandate p <> None
     /\ scan_rid (fst v) = p_rid p
     /\ exists g, snd v = Some g /\ g_viscode g = p_viscode p).
  { unfold amy_merged. rewrite merge_inner_In, filter_In, filter_pet_qc_rows_In.
    unfold key2_eqb. cbn [fst snd]. rewrite !andb_true_iff, rid_eqb_eq, ostr_eqb_eq.
    cbn [truthy]. rewrite cell_eq_num.
    destruct v as [s [g|]]; cbn [fst snd];
      destruct (p_rid p), (p_viscode p), (p_scandate p); cbn [notna]; split.
    all: try (intros (H1 & ((H2 & H3 & _) & _) & H4 & H5);
              repeat split; auto; try discriminate; eexists; split;
              [reflexivity | exact H5]).
    all: try (intros (H1 & H2 & H3 & H4 & H5 & H6 & H7 & (g' & Hg & Hv));
              try congruence;
              injection Hg as <-;
              repeat split; auto; discriminate).
    all: try (intros (_ & ((_ & _) & Hf) & _); intuition discriminate).
    all: try (intros (_ & _ & _ & _ & _ & _ & _ & (g' & Hg & _)); discriminate).
    all: try (intros (H1 & ((H2 & H3 & _) & _) & H4 & H5); discriminate). }
  split; [exact Hiff|].
  intros Hnone Hin. apply Hiff in Hin as (_ & _ & _ & _ & _ & _ & _ & (g & Hg & _)).
  congruence.
Qed.
